(** * Musix chat: presence registry, activity tracker and message relay

    A shallow embedding of [backend/src/lib/socket.js] (the socket.io
    server) and of [frontend/src/stores/useChatStore.ts] (the zustand
    store that mirrors the server's events), followed by the properties
    of the two that the specification states.

    Conventions.
    - A JavaScript string is its sequence of UTF-16 code units.
    - The values that travel in event payloads are strings or
      [undefined]; a payload object is a list of named fields, and
      reading a field that is absent yields [undefined], as in
      JavaScript.
    - A JavaScript [Map] is an association list in insertion order, in
      which [set] writes over the entry of a key that is present;
      [Array.from(m.keys())] and the [for ... of m.entries()] loop both
      follow that order.
    - Each handler is a function from the state before to the state
      after and the list of actions it performs, in program order.
      [console.log] and [console.error] are not part of the actions.
    - The [send_message] handler is [async]: it is split at its one
      [await] into the part that calls the store and the part that runs
      when the store has answered, and other handlers may run between
      the two. *)

From Stdlib Require Import NArith Ascii.
From stdpp Require Import base option list strings gmap.

Set Default Proof Using "Type".

(** ** JavaScript values *)

Module JS.

Abbreviation jsstring := (list N).

(** The code units of a string literal of the source. *)
Definition js (s : string) : jsstring :=
  N_of_ascii <$> String.list_ascii_of_string s.

Inductive jsval : Type :=
  | JUndefined
  | JStr (s : jsstring).

#[export] Instance jsval_eq_dec : EqDecision jsval.
Proof. solve_decision. Defined.

#[export] Instance jsval_inhabited : Inhabited jsval := populate JUndefined.

(** [ToBoolean]: the empty string and [undefined] are falsy. *)
Definition truthy_str (s : jsstring) : bool :=
  match s with
  | [] => false
  | _ :: _ => true
  end.

Definition truthy (v : jsval) : bool :=
  match v with
  | JUndefined => false
  | JStr s => truthy_str s
  end.

(** *** Objects used as event payloads *)

Abbreviation jsobj := (list (string * jsval)).

Fixpoint get_field (o : jsobj) (f : string) : jsval :=
  match o with
  | [] => JUndefined
  | (g, v) :: o' => if decide (g = f) then v else get_field o' f
  end.

(** *** [Map] with insertion order *)

Abbreviation jsmap V := (list (jsval * V)).

Fixpoint map_get {V} (k : jsval) (m : jsmap V) : option V :=
  match m with
  | [] => None
  | (k', v) :: m' => if decide (k' = k) then Some v else map_get k m'
  end.

(** [m.set(k, v)]: an existing key keeps its position, a new key goes
    last. *)
Fixpoint map_set {V} (k : jsval) (v : V) (m : jsmap V) : jsmap V :=
  match m with
  | [] => [(k, v)]
  | (k', v') :: m' =>
      if decide (k' = k) then (k, v) :: m' else (k', v') :: map_set k v m'
  end.

Definition map_delete {V} (k : jsval) (m : jsmap V) : jsmap V :=
  filter (λ e, e.1 ≠ k) m.

Definition map_keys {V} (m : jsmap V) : list jsval := m.*1.

Definition map_values {V} (m : jsmap V) : list V := m.*2.

(** Number of entries stored under a key. *)
Definition map_count {V} (k : jsval) (m : jsmap V) : nat :=
  length (filter (λ e, e.1 = k) m).

(** Number of occurrences of a value in an array. *)
Definition occurrences (k : jsval) (l : list jsval) : nat :=
  length (filter (λ x, x = k) l).

(** *** [Set] with insertion order *)

Abbreviation jsset := (list jsval).

Definition set_add (x : jsval) (s : jsset) : jsset :=
  if decide (x ∈ s) then s else s ++ [x].

Definition set_of_array (l : list jsval) : jsset :=
  foldl (λ s x, set_add x s) [] l.

Definition set_delete (x : jsval) (s : jsset) : jsset :=
  filter (λ y, y ≠ x) s.

(** *** [String.prototype.trim] *)

(** [WhiteSpace] and [LineTerminator] code points of ECMAScript. *)
Definition is_white_space (c : N) : bool :=
  ((c =? 0x09) || (c =? 0x0A) || (c =? 0x0B) || (c =? 0x0C) || (c =? 0x0D)
   || (c =? 0x20) || (c =? 0xA0) || (c =? 0x1680)
   || ((0x2000 <=? c) && (c <=? 0x200A))
   || (c =? 0x2028) || (c =? 0x2029) || (c =? 0x202F) || (c =? 0x205F)
   || (c =? 0x3000) || (c =? 0xFEFF))%N.

Fixpoint trimStart (s : jsstring) : jsstring :=
  match s with
  | [] => []
  | c :: s' => if is_white_space c then trimStart s' else s
  end.

Definition trimEnd (s : jsstring) : jsstring :=
  reverse (trimStart (reverse s)).

Definition trim (s : jsstring) : jsstring := trimEnd (trimStart s).

End JS.

Import JS.

(** ** The message document *)

(** Modelled from the spec: the [Message] type of [@/types] and the
    document that [Message.create] of [models/message.model.js] resolves
    to; neither file is part of the sources at hand. The spec gives the
    fields [{id, senderId, receiverId, content, createdAt}]. *)
Record Message : Type := mkMessage {
  _id : jsstring;
  senderId : jsstring;
  receiverId : jsstring;
  content : jsstring;
  createdAt : jsstring
}.

#[export] Instance Message_eq_dec : EqDecision Message.
Proof. solve_decision. Defined.

(** ** The server: [initializeSocket] *)

Module Server.

(** Where an emission goes: [io.emit] reaches every connected socket;
    [io.to(id).emit] and [socket.emit] reach the socket with that id. *)
Inductive target : Type :=
  | ToAll
  | ToSocket (id : jsstring).

#[export] Instance target_eq_dec : EqDecision target.
Proof. solve_decision. Defined.

(** The events of the server, with their payloads. *)
Inductive event : Type :=
  | users_online (ids : list jsval)
  | activity_updated (payload : jsobj)
  | receive_message (message : Message)
  | message_error (reason : jsstring)
  | user_disconnected (userId : jsval).

#[export] Instance event_eq_dec : EqDecision event.
Proof. solve_decision. Defined.

(** What the store answers: the created document, or the message of the
    error it threw. *)
Definition store_result : Type := Message + jsstring.

(** What a handler does, besides changing the two maps. [StoreCreate] is
    the call [Message.create({senderId, receiverId, content})]; the
    number names the pending promise. *)
Inductive action : Type :=
  | Emit (to : target) (e : event)
  | StoreCreate (req : nat) (sender receiver body : jsval).

#[export] Instance action_eq_dec : EqDecision action.
Proof. solve_decision. Defined.

(** The rest of the [send_message] handler after [await]: it has
    captured [socket], [senderId] and [receiverId]. *)
Record continuation : Type := mkContinuation {
  k_socket : jsstring;
  k_senderId : jsval;
  k_receiverId : jsval
}.

#[export] Instance continuation_eq_dec : EqDecision continuation.
Proof. solve_decision. Defined.

Record state : Type := mkState {
  userSockets : jsmap jsstring;     (* { clerkId: socketId } *)
  userActivities : jsmap jsval;     (* { clerkId: activity } *)
  awaiting : gmap nat continuation; (* handlers suspended at [await] *)
  next_req : nat
}.

(** The two maps as [initializeSocket] creates them. *)
Definition initializeSocket : state :=
  {| userSockets := []; userActivities := []; awaiting := ∅; next_req := 0 |}.

(** [socket.on("user_connected", (clerkId) => ...)] *)
Definition user_connected (socket : jsstring) (clerkId : jsval) (s : state)
  : state * list action :=
  let userSockets' := map_set clerkId socket (userSockets s) in
  let userActivities' := map_set clerkId (JStr (js "Online")) (userActivities s) in
  ({| userSockets := userSockets';
      userActivities := userActivities';
      awaiting := awaiting s;
      next_req := next_req s |},
   [Emit ToAll (users_online (map_keys userSockets'))]).

(** [socket.on("update_activity", ({ clerkId, activity }) => ...)] *)
Definition update_activity (socket : jsstring) (payload : jsobj) (s : state)
  : state * list action :=
  let clerkId := get_field payload "clerkId" in
  let activity := get_field payload "activity" in
  ({| userSockets := userSockets s;
      userActivities := map_set clerkId activity (userActivities s);
      awaiting := awaiting s;
      next_req := next_req s |},
   [Emit ToAll (activity_updated [("clerkId", clerkId); ("activity", activity)])]).

(** [socket.on("send_message", async (data) => ...)], up to the [await];
    [data] is an object, as the client sends it. *)
Definition send_message (socket : jsstring) (data : jsobj) (s : state)
  : state * list action :=
  let senderId := get_field data "senderId" in
  let receiverId := get_field data "receiverId" in
  let content := get_field data "content" in
  let req := next_req s in
  ({| userSockets := userSockets s;
      userActivities := userActivities s;
      awaiting :=
        <[req := {| k_socket := socket; k_senderId := senderId;
                    k_receiverId := receiverId |}]> (awaiting s);
      next_req := S req |},
   [StoreCreate req senderId receiverId content]).

(** The two [if (...SocketId) io.to(...).emit("receive_message", message)]. *)
Definition relay_to (who : jsval) (message : Message) (s : state) : list action :=
  match map_get who (userSockets s) with
  | Some socketId =>
      if truthy_str socketId then [Emit (ToSocket socketId) (receive_message message)]
      else []
  | None => []
  end.

(** The [send_message] handler from the [await] on: the [try] block's
    remainder when the promise is fulfilled, the [catch] block when it
    is rejected. *)
Definition resume (k : continuation) (r : store_result) (s : state) : list action :=
  match r with
  | inl message =>
      relay_to (k_receiverId k) message s ++ relay_to (k_senderId k) message s
  | inr reason => [Emit (ToSocket (k_socket k)) (message_error reason)]
  end.

Definition store_settled (req : nat) (r : store_result) (s : state)
  : state * list action :=
  match awaiting s !! req with
  | Some k =>
      ({| userSockets := userSockets s;
          userActivities := userActivities s;
          awaiting := delete req (awaiting s);
          next_req := next_req s |},
       resume k r s)
  | None => (s, [])
  end.

(** The [for (const [userId, socketId] of userSockets.entries())] loop:
    the first entry, in insertion order, whose socket id is the one
    looked for. *)
Fixpoint find_socket (id : jsstring) (m : jsmap jsstring) : option jsval :=
  match m with
  | [] => None
  | (userId, socketId) :: m' =>
      if decide (socketId = id) then Some userId else find_socket id m'
  end.

(** [socket.on("disconnect", () => ...)] *)
Definition disconnect (socket : jsstring) (s : state) : state * list action :=
  match find_socket socket (userSockets s) with
  | Some disconnectedUserId =>
      let userSockets' := map_delete disconnectedUserId (userSockets s) in
      ({| userSockets := userSockets';
          userActivities := map_delete disconnectedUserId (userActivities s);
          awaiting := awaiting s;
          next_req := next_req s |},
       if truthy disconnectedUserId then
         [Emit ToAll (user_disconnected disconnectedUserId);
          Emit ToAll (users_online (map_keys userSockets'))]
       else [])
  | None => (s, [])
  end.

(** What can happen to the server: an event of a connected socket, or
    the store settling a pending call. *)
Inductive input : Type :=
  | recv_user_connected (socket : jsstring) (clerkId : jsval)
  | recv_update_activity (socket : jsstring) (payload : jsobj)
  | recv_send_message (socket : jsstring) (data : jsobj)
  | store_settles (req : nat) (r : store_result)
  | recv_disconnect (socket : jsstring).

Definition step (s : state) (i : input) : state * list action :=
  match i with
  | recv_user_connected socket clerkId => user_connected socket clerkId s
  | recv_update_activity socket payload => update_activity socket payload s
  | recv_send_message socket data => send_message socket data s
  | store_settles req r => store_settled req r s
  | recv_disconnect socket => disconnect socket s
  end.

(** The server's history on a sequence of inputs: each input with the
    actions it caused. *)
Fixpoint run (s : state) (inputs : list input) : list (input * list action) :=
  match inputs with
  | [] => []
  | i :: rest => (i, (step s i).2) :: run (step s i).1 rest
  end.

Fixpoint exec (s : state) (inputs : list input) : state :=
  match inputs with
  | [] => s
  | i :: rest => exec (step s i).1 rest
  end.

(** socket.io gives every socket a non-empty id: the inputs that it can
    hand to the server. *)
Definition input_ok (i : input) : Prop :=
  match i with
  | recv_user_connected socket _
  | recv_update_activity socket _
  | recv_send_message socket _
  | recv_disconnect socket => socket ≠ []
  | store_settles _ _ => True
  end.

End Server.

(** ** The client: [useChatStore] *)

Module Client.

(** Modelled from the spec: the [User] type of [@/types], which is not
    part of the sources at hand; the store reads only its [clerkId]. *)
Record User : Type := mkUser {
  clerkId : jsstring
}.

#[export] Instance User_eq_dec : EqDecision User.
Proof. solve_decision. Defined.

(** The module's one [socket = io(baseURL, ...)] object. *)
Inductive socket_object : Type := the_socket.

#[export] Instance socket_object_eq_dec : EqDecision socket_object.
Proof. solve_decision. Defined.

(** The data fields of [ChatStore]. [socket] is typed [any]: it may hold
    a falsy value, which is [None] here. [fetchUsers] and
    [fetchMessages], which only talk to the REST API through axios, are
    in the module [Rest] below. *)
Record ChatStore : Type := mkChatStore {
  users : list User;
  isLoading : bool;
  error : option jsstring;
  socket : option socket_object;
  isConnected : bool;
  onlineUsers : jsset;
  userActivities : jsmap jsval;
  messages : list Message;
  selectedUser : option User
}.

#[export] Instance ChatStore_eq_dec : EqDecision ChatStore.
Proof. solve_decision. Defined.

Definition useChatStore : ChatStore :=
  {| users := []; isLoading := false; error := None;
     socket := Some the_socket; isConnected := false;
     onlineUsers := []; userActivities := []; messages := [];
     selectedUser := None |}.

(** [set({ ... })] merges the fields given into the state; one function
    for each partial state the store uses. *)
Definition set_onlineUsers (v : jsset) (st : ChatStore) : ChatStore :=
  {| users := users st; isLoading := isLoading st; error := error st;
     socket := socket st; isConnected := isConnected st;
     onlineUsers := v; userActivities := userActivities st;
     messages := messages st; selectedUser := selectedUser st |}.

Definition set_userActivities (v : jsmap jsval) (st : ChatStore) : ChatStore :=
  {| users := users st; isLoading := isLoading st; error := error st;
     socket := socket st; isConnected := isConnected st;
     onlineUsers := onlineUsers st; userActivities := v;
     messages := messages st; selectedUser := selectedUser st |}.

Definition set_messages (v : list Message) (st : ChatStore) : ChatStore :=
  {| users := users st; isLoading := isLoading st; error := error st;
     socket := socket st; isConnected := isConnected st;
     onlineUsers := onlineUsers st; userActivities := userActivities st;
     messages := v; selectedUser := selectedUser st |}.

Definition set_isConnected (v : bool) (st : ChatStore) : ChatStore :=
  {| users := users st; isLoading := isLoading st; error := error st;
     socket := socket st; isConnected := v;
     onlineUsers := onlineUsers st; userActivities := userActivities st;
     messages := messages st; selectedUser := selectedUser st |}.

(** [setSelectedUser: (user) => set({ selectedUser: user, messages: [] })] *)
Definition setSelectedUser (user : option User) (st : ChatStore) : ChatStore :=
  {| users := users st; isLoading := isLoading st; error := error st;
     socket := socket st; isConnected := isConnected st;
     onlineUsers := onlineUsers st; userActivities := userActivities st;
     messages := []; selectedUser := user |}.

(** *** The listeners that [initSocket] registers *)

(** [socket.on("users_online", (users) => set({ onlineUsers: new Set(users) }))] *)
Definition on_users_online (users : list jsval) (st : ChatStore) : ChatStore :=
  set_onlineUsers (set_of_array users) st.

(** [socket.on("receive_message", (message) => ...)]; [userId] is the
    argument of the [initSocket] call that registered the listener. *)
Definition on_receive_message (userId : jsstring) (message : Message)
    (st : ChatStore) : ChatStore :=
  let selected : option jsstring := clerkId <$> selectedUser st in
  let currentUserId := userId in
  let isFromSelectedUser := bool_decide (Some (senderId message) = selected) in
  let isToSelectedUser := bool_decide (Some (receiverId message) = selected) in
  if (isFromSelectedUser && bool_decide (receiverId message = currentUserId))
     || (isToSelectedUser && bool_decide (senderId message = currentUserId))
  then set_messages (messages st ++ [message]) st
  else st.

(** [socket.on("activities", (activities) => set({ userActivities: new Map(activities) }))] *)
Definition on_activities (activities : list (jsval * jsval)) (st : ChatStore)
  : ChatStore :=
  set_userActivities (foldl (λ m e, map_set e.1 e.2 m) [] activities) st.

(** [socket.on("user_connected", (userId) => ...)] *)
Definition on_user_connected (userId : jsval) (st : ChatStore) : ChatStore :=
  set_onlineUsers (set_of_array (onlineUsers st ++ [userId])) st.

(** [socket.on("user_disconnected", (userId) => ...)] *)
Definition on_user_disconnected (userId : jsval) (st : ChatStore) : ChatStore :=
  let newOnlineUsers := set_delete userId (set_of_array (onlineUsers st)) in
  set_onlineUsers newOnlineUsers st.

(** [socket.on("activity_updated", ({ userId: updatedUserId, activity }) => ...)] *)
Definition on_activity_updated (payload : jsobj) (st : ChatStore) : ChatStore :=
  let updatedUserId := get_field payload "userId" in
  let activity := get_field payload "activity" in
  let newActivities := map_set updatedUserId activity (userActivities st) in
  set_userActivities newActivities st.

(** *** The socket's side of the store *)

(** What the store does to its socket. *)
Inductive socket_action : Type :=
  | set_auth (userId : jsstring)
  | connect
  | socket_disconnect
  | emit_user_connected (userId : jsstring)
  | emit_send_message (data : jsobj).

#[export] Instance socket_action_eq_dec : EqDecision socket_action.
Proof. solve_decision. Defined.

(** A client: the store, and the [userId] of every [initSocket] call
    that registered the six listeners on the socket, oldest first. *)
Record client : Type := mkClient {
  store : ChatStore;
  registered : list jsstring
}.

Definition fresh_client : client :=
  {| store := useChatStore; registered := [] |}.

(** [initSocket: (userId) => { if (!get().isConnected) { ... } }] *)
Definition initSocket (userId : jsstring) (c : client)
  : client * list socket_action :=
  if negb (isConnected (store c)) then
    ({| store := set_isConnected true (store c);
        registered := registered c ++ [userId] |},
     [set_auth userId; connect; emit_user_connected userId])
  else (c, []).

(** [disconnectSocket: () => { if (get().isConnected) { ... } }] *)
Definition disconnectSocket (c : client) : client * list socket_action :=
  if isConnected (store c) then
    ({| store := set_isConnected false (store c);
        registered := registered c |},
     [socket_disconnect])
  else (c, []).

(** [sendMessage: async (receiverId, senderId, content) => ...] *)
Definition sendMessage (receiverId senderId content : jsstring)
    (st : ChatStore) : ChatStore * list socket_action :=
  let socket := socket st in
  if negb (bool_decide (is_Some socket)) || negb (truthy_str (trim content))
  then (st, [])
  else
    (st,
     [emit_send_message
        [("receiverId", JStr receiverId); ("senderId", JStr senderId);
         ("content", JStr content)]]).

(** One set of listeners receiving an event of the server; there is no
    listener for [message_error]. *)
Definition listen (userId : jsstring) (e : Server.event) (st : ChatStore)
  : ChatStore :=
  match e with
  | Server.users_online ids => on_users_online ids st
  | Server.activity_updated payload => on_activity_updated payload st
  | Server.receive_message message => on_receive_message userId message st
  | Server.message_error _ => st
  | Server.user_disconnected u => on_user_disconnected u st
  end.

(** The socket calls the listeners in the order they were registered. *)
Definition deliver (e : Server.event) (c : client) : client :=
  {| store := foldl (λ st userId, listen userId e st) (store c) (registered c);
     registered := registered c |}.

End Client.

(** ** The client's REST calls: [fetchUsers] and [fetchMessages] *)

Module Rest.

Import Client.

(** What a failed [axiosInstance.get] hands to the [catch] block: an
    error whose [response.data.message] can be read, or one on which
    reading it throws, as a network failure, which has no [response].
    The message is taken to be a string, as the type of the store's
    [error] field requires. *)
Inductive axios_error : Type :=
  | error_with_message (message : jsstring)
  | error_without_response.

(** The calls made: [get("/users")] and [get(`/users/messages/${userId}`)]. *)
Inductive request : Type :=
  | get_users
  | get_messages (userId : jsstring).

(** How the promise of an [async] function ends. *)
Inductive promise : Type :=
  | fulfilled
  | rejected.

(** [set({ isLoading: true, error: null })] *)
Definition set_loading (st : ChatStore) : ChatStore :=
  {| users := users st; isLoading := true; error := None;
     socket := socket st; isConnected := isConnected st;
     onlineUsers := onlineUsers st; userActivities := userActivities st;
     messages := messages st; selectedUser := selectedUser st |}.

Definition set_users (v : list User) (st : ChatStore) : ChatStore :=
  {| users := v; isLoading := isLoading st; error := error st;
     socket := socket st; isConnected := isConnected st;
     onlineUsers := onlineUsers st; userActivities := userActivities st;
     messages := messages st; selectedUser := selectedUser st |}.

Definition set_error (v : option jsstring) (st : ChatStore) : ChatStore :=
  {| users := users st; isLoading := isLoading st; error := v;
     socket := socket st; isConnected := isConnected st;
     onlineUsers := onlineUsers st; userActivities := userActivities st;
     messages := messages st; selectedUser := selectedUser st |}.

Definition set_isLoading (v : bool) (st : ChatStore) : ChatStore :=
  {| users := users st; isLoading := v; error := error st;
     socket := socket st; isConnected := isConnected st;
     onlineUsers := onlineUsers st; userActivities := userActivities st;
     messages := messages st; selectedUser := selectedUser st |}.

(** [fetchUsers], up to its [await]. *)
Definition fetchUsers_start (st : ChatStore) : ChatStore * request :=
  (set_loading st, get_users).

(** [fetchUsers] from its [await] on: the rest of the [try] block or the
    [catch] block, then the [finally] block. When the [catch] block
    throws, the [finally] block still runs and the promise is
    rejected. *)
Definition fetchUsers_settled (r : list User + axios_error) (st : ChatStore)
  : ChatStore * promise :=
  match r with
  | inl data => (set_isLoading false (set_users data st), fulfilled)
  | inr (error_with_message message) =>
      (set_isLoading false (set_error (Some message) st), fulfilled)
  | inr error_without_response => (set_isLoading false st, rejected)
  end.

(** [fetchMessages], up to its [await]. *)
Definition fetchMessages_start (userId : jsstring) (st : ChatStore)
  : ChatStore * request :=
  (set_loading st, get_messages userId).

(** [fetchMessages] from its [await] on; its [catch] block does not read
    the error. *)
Definition fetchMessages_settled (r : list Message + axios_error)
    (st : ChatStore) : ChatStore * promise :=
  match r with
  | inl data => (set_isLoading false (set_messages data st), fulfilled)
  | inr _ => (set_isLoading false (set_messages [] st), fulfilled)
  end.

End Rest.

Import Server.

(** ** What the specification says, in its own words *)

(** "The message's sender/receiver pair matches the currently selected
    conversation and includes the local identity as one endpoint": a
    conversation is selected, and the message goes from its user to the
    local user or from the local user to its user. *)
Definition in_selected_conversation (me : jsstring) (selected : option Client.User)
    (m : Message) : Prop :=
  ∃ u, selected = Some u ∧
       ((senderId m = Client.clerkId u ∧ receiverId m = me) ∨
        (senderId m = me ∧ receiverId m = Client.clerkId u)).

(** The emissions of one event name among the actions of a handler. *)
Inductive event_name : Type :=
  | name_users_online
  | name_activity_updated
  | name_receive_message
  | name_message_error
  | name_user_disconnected.

#[export] Instance event_name_eq_dec : EqDecision event_name.
Proof. solve_decision. Defined.

Definition name_of (e : event) : event_name :=
  match e with
  | users_online _ => name_users_online
  | activity_updated _ => name_activity_updated
  | receive_message _ => name_receive_message
  | message_error _ => name_message_error
  | user_disconnected _ => name_user_disconnected
  end.

Fixpoint emissions (n : event_name) (acts : list action) : list (target * event) :=
  match acts with
  | [] => []
  | Emit to e :: acts' =>
      if decide (name_of e = n) then (to, e) :: emissions n acts'
      else emissions n acts'
  | StoreCreate _ _ _ _ :: acts' => emissions n acts'
  end.

(** The emissions made with [io.emit], to every connected socket. *)
Fixpoint broadcasts (acts : list action) : list event :=
  match acts with
  | [] => []
  | Emit ToAll e :: acts' => e :: broadcasts acts'
  | _ :: acts' => broadcasts acts'
  end.

(** "If the external [MessageStore.create] call fails, then no
    [receive_message] event is emitted to any peer, no broadcast occurs,
    and exactly one [message_error] event is emitted, and it goes only
    to the sender's current registered connection, if one exists." *)
Definition store_failure_notifies_registered_sender : Prop :=
  ∀ (inputs : list input) (req : nat) (k : continuation) (reason : jsstring),
    Forall input_ok inputs →
    let s := exec initializeSocket inputs in
    let acts := (step s (store_settles req (inr reason))).2 in
    awaiting s !! req = Some k →
    emissions name_receive_message acts = [] ∧
    broadcasts acts = [] ∧
    length (emissions name_message_error acts) = 1 ∧
    ∀ c, map_get (k_senderId k) (userSockets s) = Some c →
         ∀ to e, (to, e) ∈ emissions name_message_error acts → to = ToSocket c.

(** ** What holds of the two maps in every state of the server *)

Record well_formed (s : state) : Prop := mk_well_formed {
  wf_sockets_keys : NoDup (map_keys (userSockets s));
  wf_activities_keys : NoDup (map_keys (userActivities s));
  wf_tracked : map_keys (userSockets s) ⊆ map_keys (userActivities s)
}.

(** Every socket id in the registry is a non-empty string. *)
Definition sockets_named (s : state) : Prop :=
  ∀ u c, (u, c) ∈ userSockets s → c ≠ [].

(** The store call that a [send_message] request makes. *)
Definition create_call (req : nat) (data : jsobj) : action :=
  StoreCreate req (get_field data "senderId") (get_field data "receiverId")
    (get_field data "content").

(** ** Names used in the examples *)

Definition alice : jsval := JStr (js "alice").
Definition bob : jsval := JStr (js "bob").
Definition tab1 : jsstring := js "tab1".
Definition tab2 : jsstring := js "tab2".
Definition hi_from_alice_to_bob : jsobj :=
  [("senderId", alice); ("receiverId", bob); ("content", JStr (js "hi"))].
Definition stored_hi : Message :=
  {| _id := js "m1"; senderId := js "alice"; receiverId := js "bob";
     content := js "hi"; createdAt := js "2024-01-01T00:00:00.000Z" |}.

(** The two shapes of an [update_activity] payload: with the field name
    that the server's handler reads, and with the field name of the
    specification's event table, which is also the one that the client's
    [activity_updated] listener reads. *)
Definition alice_listening_clerkId : jsobj :=
  [("clerkId", alice); ("activity", JStr (js "Listening"))].
Definition alice_listening_userId : jsobj :=
  [("userId", alice); ("activity", JStr (js "Listening"))].

(** Bob's client, after [initSocket("bob")]. *)
Definition bob_client : Client.client :=
  (Client.initSocket (js "bob") Client.fresh_client).1.

(** Alice opens the application in a first tab and then in a second one,
    and sends a message from the first. *)
Definition two_tabs : list input :=
  [recv_user_connected tab1 alice;
   recv_user_connected tab2 alice;
   recv_send_message tab1 hi_from_alice_to_bob].

(** Alice connects and writes to Bob, who is not connected. *)
Definition alice_writes_to_absent_bob : list input :=
  [recv_user_connected tab1 alice;
   recv_send_message tab1 hi_from_alice_to_bob].

(** ** From the server's emissions to a client *)

(** The events among the actions of a step that reach the socket [id]:
    those emitted to all and those addressed to it, in order. *)
Fixpoint inbox (id : jsstring) (acts : list action) : list event :=
  match acts with
  | [] => []
  | Emit ToAll e :: acts' => e :: inbox id acts'
  | Emit (ToSocket c) e :: acts' =>
      if decide (c = id) then e :: inbox id acts' else inbox id acts'
  | StoreCreate _ _ _ _ :: acts' => inbox id acts'
  end.

(** A client receiving events one after the other. *)
Definition receive (events : list event) (c : Client.client) : Client.client :=
  foldl (λ c e, Client.deliver e c) c events.

(** One listener receiving messages one after the other. *)
Definition receive_messages (userId : jsstring) (ms : list Message)
    (st : Client.ChatStore) : Client.ChatStore :=
  foldl (λ st m, Client.on_receive_message userId m st) st ms.

#[export] Instance in_selected_conversation_dec me selected m :
  Decision (in_selected_conversation me selected m).
Proof.
  destruct selected as [u|].
  - destruct (decide ((senderId m = Client.clerkId u ∧ receiverId m = me) ∨
                      (senderId m = me ∧ receiverId m = Client.clerkId u)))
      as [H|H].
    + left. by exists u.
    + right. intros (u' & [= <-] & H'). by apply H.
  - right. by intros (u' & [=] & _).
Defined.

(** The value of the last entry of a key in an array of entries. *)
Definition last_entry {V} (k : jsval) (entries : list (jsval * V)) : option V :=
  map_get k (reverse entries).

Definition is_disconnect (i : input) : Prop :=
  match i with
  | recv_disconnect _ => True
  | _ => False
  end.

(** A code unit that [trim] does not strip. *)
Definition is_visible (c : N) : Prop := is_white_space c = false.

(** Names used in more examples. *)
Definition carol : jsval := JStr (js "carol").
Definition tab3 : jsstring := js "tab3".
Definition user_bob : Client.User := {| Client.clerkId := js "bob" |}.
Definition note_to_self : Message :=
  {| _id := js "m2"; senderId := js "alice"; receiverId := js "alice";
     content := js "todo"; createdAt := js "2024-01-01T00:00:01.000Z" |}.

(** ** Lemmas on [Map] *)

Section jsmap_lemmas.
Context {V : Type}.
Implicit Types (m : jsmap V) (k : jsval) (v : V).

Lemma map_get_set_eq k v m : map_get k (map_set k v m) = Some v.
Proof.
  induction m as [|[k' v'] m IH]; simpl.
  - by rewrite decide_True.
  - destruct (decide (k' = k)) as [->|Hne]; simpl.
    + by rewrite decide_True.
    + by rewrite decide_False.
Qed.

Lemma map_get_set_ne k k' v m :
  k ≠ k' → map_get k' (map_set k v m) = map_get k' m.
Proof.
  intros Hne. induction m as [|[k0 v0] m IH]; simpl.
  - by rewrite decide_False.
  - destruct (decide (k0 = k)) as [->|Hk]; simpl.
    + by rewrite !decide_False.
    + by rewrite IH.
Qed.

Lemma map_get_None k m : map_get k m = None ↔ k ∉ map_keys m.
Proof.
  unfold map_keys. induction m as [|[k' v'] m IH]; simpl.
  - split; [intros _; apply not_elem_of_nil | done].
  - rewrite not_elem_of_cons. destruct (decide (k' = k)) as [->|Hne].
    + split; [done | by intros [? _]].
    + rewrite IH. split; [by intros ?; split | by intros [_ ?]].
Qed.

Lemma map_get_Some_elem k v m : map_get k m = Some v → (k, v) ∈ m.
Proof.
  induction m as [|[k' v'] m IH]; simpl; [done|].
  destruct (decide (k' = k)) as [->|Hne].
  - intros [= ->]. apply list_elem_of_here.
  - intros H. apply list_elem_of_further, IH, H.
Qed.

Lemma map_keys_set k v m :
  map_keys (map_set k v m) =
  if decide (k ∈ map_keys m) then map_keys m else map_keys m ++ [k].
Proof.
  unfold map_keys. induction m as [|[k' v'] m IH].
  - case_decide as Hin; [by apply elem_of_nil in Hin | done].
  - cbn [map_set]. destruct (decide (k' = k)) as [->|Hne].
    + rewrite decide_True by apply list_elem_of_here. done.
    + rewrite fmap_cons, IH. cbn [fmap list_fmap fst].
      destruct (decide (k ∈ m.*1)) as [Hin|Hnin].
      * rewrite decide_True by (by apply list_elem_of_further). done.
      * rewrite decide_False; [done|].
        rewrite not_elem_of_cons. by split.
Qed.

Lemma elem_of_map_keys_set x k v m :
  x ∈ map_keys (map_set k v m) ↔ x = k ∨ x ∈ map_keys m.
Proof.
  rewrite map_keys_set. case_decide as Hin.
  - split; [by right | by intros [->|?]].
  - rewrite elem_of_app, list_elem_of_singleton. tauto.
Qed.

Lemma NoDup_map_keys_set k v m :
  NoDup (map_keys m) → NoDup (map_keys (map_set k v m)).
Proof.
  intros Hnd. rewrite map_keys_set. case_decide as Hin; [done|].
  apply NoDup_app. split_and!; [done | | apply NoDup_singleton].
  intros x Hx ->%list_elem_of_singleton. done.
Qed.

Lemma elem_of_map_keys_delete x k m :
  x ∈ map_keys (map_delete k m) ↔ x ≠ k ∧ x ∈ map_keys m.
Proof.
  unfold map_keys, map_delete. rewrite !list_elem_of_fmap. split.
  - intros [[k' v'] [-> [Hne Hin]%list_elem_of_filter]]. simpl in *.
    split; [done|]. by exists (k', v').
  - intros [Hne [[k' v'] [-> Hin]]]. exists (k', v'). split; [done|].
    by apply list_elem_of_filter.
Qed.

Lemma NoDup_map_keys_delete k m :
  NoDup (map_keys m) → NoDup (map_keys (map_delete k m)).
Proof.
  induction m as [|[k' v'] m IH]; [done|].
  unfold map_keys, map_delete in *. rewrite fmap_cons, NoDup_cons.
  intros [Hnin Hnd]. rewrite filter_cons. case_decide as Hne.
  - rewrite fmap_cons, NoDup_cons. split; [|by apply IH].
    intros [_ ?]%(elem_of_map_keys_delete k' k m). done.
  - by apply IH.
Qed.

Lemma map_count_occurrences k m : map_count k m = occurrences k (map_keys m).
Proof.
  unfold map_count, occurrences, map_keys.
  induction m as [|[k' v'] m IH]; [done|].
  rewrite fmap_cons, !filter_cons. cbn [fst].
  case_decide; cbn [length]; by rewrite IH.
Qed.

End jsmap_lemmas.

Lemma occurrences_not_elem_of k l : k ∉ l → occurrences k l = 0.
Proof.
  unfold occurrences. induction l as [|x l IH]; [done|].
  rewrite not_elem_of_cons. intros [Hne Hnin].
  rewrite filter_cons. rewrite decide_False by done. by apply IH.
Qed.

Lemma occurrences_NoDup k l : NoDup l → k ∈ l → occurrences k l = 1.
Proof.
  unfold occurrences. induction l as [|x l IH]; [by intros _ ?%elem_of_nil|].
  rewrite NoDup_cons, elem_of_cons. intros [Hnin Hnd] Hin.
  rewrite filter_cons. destruct (decide (x = k)) as [->|Hne]; simpl.
  - f_equal. by apply (occurrences_not_elem_of k l).
  - apply IH; [done|]. destruct Hin as [->|?]; done.
Qed.

Lemma elem_of_map_set {V} (e : jsval * V) k v (m : jsmap V) :
  e ∈ map_set k v m → e = (k, v) ∨ e ∈ m.
Proof.
  induction m as [|[k' v'] m IH]; cbn [map_set].
  - intros ->%list_elem_of_singleton. by left.
  - case_decide as Hk.
    + rewrite !elem_of_cons. intros [->|?]; auto.
    + rewrite !elem_of_cons. intros [->|?]; [auto|].
      destruct IH as [->|?]; auto.
Qed.

Lemma elem_of_map_delete {V} (e : jsval * V) k (m : jsmap V) :
  e ∈ map_delete k m → e ∈ m.
Proof. unfold map_delete. by intros [_ ?]%list_elem_of_filter. Qed.

(** ** The disconnect scan *)

Lemma find_socket_None id (m : jsmap jsstring) :
  find_socket id m = None ↔ id ∉ map_values m.
Proof.
  unfold map_values. induction m as [|[u c] m IH]; cbn [find_socket].
  - split; [intros _; apply not_elem_of_nil | done].
  - rewrite fmap_cons, not_elem_of_cons. cbn [snd].
    destruct (decide (c = id)) as [->|Hne].
    + split; [done | by intros [? _]].
    + rewrite IH. split; [by intros ?; split | by intros [_ ?]].
Qed.

(** ** Histories *)

Lemma exec_app s l1 l2 : exec s (l1 ++ l2) = exec (exec s l1) l2.
Proof. revert s. induction l1 as [|i l1 IH]; intros s; [done|]. apply IH. Qed.

Lemma exec_snoc s l i : exec s (l ++ [i]) = (step (exec s l) i).1.
Proof. by rewrite exec_app. Qed.

Lemma run_app s l1 l2 : run s (l1 ++ l2) = run s l1 ++ run (exec s l1) l2.
Proof.
  revert s. induction l1 as [|i l1 IH]; intros s; [done|].
  cbn [app run exec]. by rewrite IH.
Qed.

Lemma length_run s l : length (run s l) = length l.
Proof. revert s. induction l as [|i l IH]; intros s; cbn; [done|]. by rewrite IH. Qed.

Lemma run_take s l n : run s (take n l) = take n (run s l).
Proof.
  revert s n. induction l as [|i l IH]; intros s [|n]; cbn; try done.
  by rewrite IH.
Qed.

(** The [n]-th entry of a history is the [n]-th input with what the
    server did on it, in the state the inputs before it led to. *)
Lemma run_lookup s l n i acts :
  run s l !! n = Some (i, acts) →
  l !! n = Some i ∧ acts = (step (exec s (take n l)) i).2.
Proof.
  revert s n. induction l as [|i' l IH]; intros s [|n]; cbn; try done.
  - by intros [= -> ->].
  - apply IH.
Qed.

(** ** What the handlers leave alone *)

Lemma disconnect_awaiting socket s :
  awaiting (disconnect socket s).1 = awaiting s ∧
  next_req (disconnect socket s).1 = next_req s.
Proof. unfold disconnect. by destruct (find_socket socket (userSockets s)). Qed.

Lemma store_settled_maps req r s :
  userSockets (store_settled req r s).1 = userSockets s ∧
  userActivities (store_settled req r s).1 = userActivities s.
Proof. unfold store_settled. by destruct (awaiting s !! req). Qed.

(** ** Well-formedness is kept by every step *)

Lemma well_formed_init : well_formed initializeSocket.
Proof. split; cbn; [apply NoDup_nil_2 | apply NoDup_nil_2 | done]. Qed.

Lemma well_formed_step s i : well_formed s → well_formed (step s i).1.
Proof.
  intros [Hs Ha Hsub]. destruct i as [c u|c p|c d|req r|c]; cbn [step].
  - unfold user_connected.
    split; cbn [fst userSockets userActivities].
    + by apply NoDup_map_keys_set.
    + by apply NoDup_map_keys_set.
    + intros x. rewrite !elem_of_map_keys_set. intros [->|?]; [by left|].
      right. by apply Hsub.
  - unfold update_activity.
    split; cbn [fst userSockets userActivities]; [done | by apply NoDup_map_keys_set |].
    intros x Hx. apply elem_of_map_keys_set. right. by apply Hsub.
  - by split.
  - destruct (store_settled_maps req r s) as [E1 E2].
    split; rewrite ?E1, ?E2; done.
  - unfold disconnect. destruct (find_socket c (userSockets s)) as [u|]; [|by split].
    split; cbn [fst userSockets userActivities].
    + by apply NoDup_map_keys_delete.
    + by apply NoDup_map_keys_delete.
    + intros x. rewrite !elem_of_map_keys_delete. intros [? ?].
      split; [done|]. by apply Hsub.
Qed.

Lemma well_formed_exec s inputs : well_formed s → well_formed (exec s inputs).
Proof.
  revert s. induction inputs as [|i l IH]; intros s Hwf; [done|].
  apply IH. by apply well_formed_step.
Qed.

(** ** Registered socket ids are never empty *)

Lemma sockets_named_step s i :
  input_ok i → sockets_named s → sockets_named (step s i).1.
Proof.
  intros Hok Hs. destruct i as [c u|c p|c d|req r|c]; cbn [step].
  - intros u' c' [[= -> ->]|Hin]%elem_of_map_set; [done|]. by eapply Hs.
  - done.
  - done.
  - destruct (store_settled_maps req r s) as [E1 _].
    unfold sockets_named. by rewrite E1.
  - unfold disconnect. destruct (find_socket c (userSockets s)) as [u|]; [|done].
    intros u' c' Hin%elem_of_map_delete. by eapply Hs.
Qed.

Lemma sockets_named_exec inputs :
  Forall input_ok inputs → sockets_named (exec initializeSocket inputs).
Proof.
  induction inputs as [|i l IH] using rev_ind.
  - intros _ u c Hin. by apply elem_of_nil in Hin.
  - rewrite Forall_app, Forall_singleton. intros [Hl Hi].
    rewrite exec_snoc. by apply sockets_named_step, IH.
Qed.

(** ** Every suspended handler was started by a request *)

Lemma awaiting_issued inputs req k :
  awaiting (exec initializeSocket inputs) !! req = Some k →
  ∃ j data,
    run initializeSocket inputs !! j
      = Some (recv_send_message (k_socket k) data, [create_call req data]) ∧
    k_senderId k = get_field data "senderId" ∧
    k_receiverId k = get_field data "receiverId".
Proof.
  revert req k. induction inputs as [|i l IH] using rev_ind; intros req k.
  - cbn. by rewrite lookup_empty.
  - rewrite exec_snoc, run_app. cbn [run].
    set (s := exec initializeSocket l) in *.
    remember (step s i).2 as acts eqn:Hacts.
    assert (awaiting s !! req = Some k →
            ∃ j data,
              (run initializeSocket l ++ [(i, acts)]) !! j
                = Some (recv_send_message (k_socket k) data, [create_call req data]) ∧
              k_senderId k = get_field data "senderId" ∧
              k_receiverId k = get_field data "receiverId") as Hold.
    { intros (j & data & Hj & ? & ?)%IH. exists j, data.
      split_and!; [|done..]. by apply lookup_app_l_Some. }
    destruct i as [c u|c p|c d|req' r|c]; cbn [step]; try exact Hold.
    + cbn [send_message fst awaiting].
      destruct (decide (next_req s = req)) as [<-|Hne].
      * rewrite lookup_insert_eq. intros [= <-]. cbn [k_socket k_senderId k_receiverId].
        exists (length l), d. split_and!; [|done..].
        rewrite lookup_app_r by (by rewrite length_run).
        rewrite length_run, Nat.sub_diag. by rewrite Hacts.
      * rewrite lookup_insert_ne by done. exact Hold.
    + unfold store_settled. destruct (awaiting s !! req') as [k'|]; [|exact Hold].
      cbn [fst awaiting]. intros [_ ?]%lookup_delete_Some. by apply Hold.
    + destruct (disconnect_awaiting c s) as [-> _]. exact Hold.
Qed.

(** ** The activity delta, from the server to a client's mirror *)

(** Whatever the payload of [update_activity], the server broadcasts an
    object with the fields [clerkId] and [activity], and a mirror that
    receives it writes the activity under the key [undefined]: the
    listener reads the field [userId], which the object does not have.
    The entry of every user id stays what it was. *)
Lemma activity_delta_written_under_undefined socket payload s userId st
    (u : jsstring) :
  ∃ delta,
    (update_activity socket payload s).2 = [Emit ToAll (activity_updated delta)] ∧
    Client.userActivities (Client.listen userId (activity_updated delta) st)
      = map_set JUndefined (get_field payload "activity") (Client.userActivities st) ∧
    map_get (JStr u) (Client.userActivities (Client.listen userId (activity_updated delta) st))
      = map_get (JStr u) (Client.userActivities st).
Proof.
  eexists. split; [reflexivity|].
  cbn [Client.listen]. unfold Client.on_activity_updated.
  cbn [Client.set_userActivities Client.userActivities].
  assert (get_field [("clerkId", get_field payload "clerkId");
                     ("activity", get_field payload "activity")] "userId"
          = JUndefined) as -> by reflexivity.
  assert (get_field [("clerkId", get_field payload "clerkId");
                     ("activity", get_field payload "activity")] "activity"
          = get_field payload "activity") as -> by reflexivity.
  split; [done|]. by apply map_get_set_ne.
Qed.

(** C1 (defect of the code): alice is connected and her activity
    becomes "Listening". Under either name for the user-id field of the
    [update_activity] payload, the server broadcasts the delta to every
    socket and the mirror of a connected client ends with the single
    entry [undefined -> "Listening"]: it holds no entry for alice. With
    the field name [userId] the server's own activity map is written
    under [undefined] as well. *)
Theorem C1_activity_update_lost_at_mirror :
  let s := exec initializeSocket [recv_user_connected tab1 alice] in
  (* the payload names the user [clerkId], as the server reads it *)
  ((update_activity tab1 alice_listening_clerkId s).2
     = [Emit ToAll (activity_updated alice_listening_clerkId)] ∧
   Client.userActivities
     (Client.store (Client.deliver (activity_updated alice_listening_clerkId) bob_client))
     = [(JUndefined, JStr (js "Listening"))] ∧
   map_get alice
     (Client.userActivities
        (Client.store (Client.deliver (activity_updated alice_listening_clerkId) bob_client)))
     = None) ∧
  (* the payload names the user [userId], as the claim writes it *)
  ((update_activity tab1 alice_listening_userId s).2
     = [Emit ToAll (activity_updated
                      [("clerkId", JUndefined); ("activity", JStr (js "Listening"))])] ∧
   userActivities (update_activity tab1 alice_listening_userId s).1
     = [(alice, JStr (js "Online")); (JUndefined, JStr (js "Listening"))] ∧
   map_get alice
     (Client.userActivities
        (Client.store
           (Client.deliver
              (activity_updated
                 [("clerkId", JUndefined); ("activity", JStr (js "Listening"))])
              bob_client)))
     = None).
Proof. vm_compute. done. Qed.

(** ** The relay *)

Lemma store_failure_actions s req k reason :
  awaiting s !! req = Some k →
  (step s (store_settles req (inr reason))).2
    = [Emit (ToSocket (k_socket k)) (message_error reason)].
Proof. intros Hk. cbn [step]. unfold store_settled. by rewrite Hk. Qed.

(** C2, as the claim states it, fails: alice is registered from two
    tabs in turn, so that the registry holds the second; the first tab
    sends a message and the store fails. The one [message_error] goes to
    the first tab, which made the request, and not to the connection
    registered for the sender. *)
Lemma C2_error_not_sent_to_registered_connection :
  Forall input_ok two_tabs ∧
  awaiting (exec initializeSocket two_tabs) !! 0
    = Some {| k_socket := tab1; k_senderId := alice; k_receiverId := bob |} ∧
  map_get alice (userSockets (exec initializeSocket two_tabs)) = Some tab2 ∧
  (step (exec initializeSocket two_tabs) (store_settles 0 (inr (js "store down")))).2
    = [Emit (ToSocket tab1) (message_error (js "store down"))] ∧
  ¬ store_failure_notifies_registered_sender.
Proof.
  assert (Forall input_ok two_tabs) as Hok.
  { repeat constructor; by vm_compute. }
  split_and!; [done | reflexivity | reflexivity | reflexivity |].
  intros H.
  destruct (H two_tabs 0 _ (js "store down") Hok eq_refl) as (_ & _ & _ & Hto).
  specialize (Hto tab2 eq_refl (ToSocket tab1) (message_error (js "store down"))).
  assert (ToSocket tab1 = ToSocket tab2) as Heq.
  { apply Hto. vm_compute. apply list_elem_of_here. }
  by vm_compute in Heq.
Qed.

(** C2 (amended): when the store call of a [send_message] request
    fails, the handler emits exactly one event: a [message_error] to the
    socket on which the request arrived, whatever the registry holds
    for the sender. There is no [receive_message] and no broadcast, and
    the two maps are left as they were. *)
Theorem C2_store_failure_notifies_requester inputs req k reason :
  awaiting (exec initializeSocket inputs) !! req = Some k →
  (∃ j data,
     run initializeSocket inputs !! j
       = Some (recv_send_message (k_socket k) data, [create_call req data])) ∧
  emissions name_receive_message
    (step (exec initializeSocket inputs) (store_settles req (inr reason))).2 = [] ∧
  broadcasts
    (step (exec initializeSocket inputs) (store_settles req (inr reason))).2 = [] ∧
  emissions name_message_error
    (step (exec initializeSocket inputs) (store_settles req (inr reason))).2
    = [(ToSocket (k_socket k), message_error reason)] ∧
  (step (exec initializeSocket inputs) (store_settles req (inr reason))).2
    = [Emit (ToSocket (k_socket k)) (message_error reason)] ∧
  userSockets (step (exec initializeSocket inputs) (store_settles req (inr reason))).1
    = userSockets (exec initializeSocket inputs) ∧
  userActivities (step (exec initializeSocket inputs) (store_settles req (inr reason))).1
    = userActivities (exec initializeSocket inputs).
Proof.
  intros Hk. split.
  { destruct (awaiting_issued _ _ _ Hk) as (j & data & Hj & _). eauto. }
  rewrite (store_failure_actions _ _ _ _ Hk).
  split_and!; try reflexivity; apply store_settled_maps.
Qed.

Lemma C2_store_failure_notifies_requester_witness :
  awaiting (exec initializeSocket two_tabs) !! 0
    = Some {| k_socket := tab1; k_senderId := alice; k_receiverId := bob |} ∧
  (step (exec initializeSocket two_tabs) (store_settles 0 (inr (js "store down")))).2
    = [Emit (ToSocket tab1) (message_error (js "store down"))].
Proof.
  split; [reflexivity|].
  apply (C2_store_failure_notifies_requester two_tabs 0
           {| k_socket := tab1; k_senderId := alice; k_receiverId := bob |}
           (js "store down")).
  reflexivity.
Defined.

Lemma elem_of_relay_to a who message s :
  a ∈ relay_to who message s → ∃ c, a = Emit (ToSocket c) (receive_message message).
Proof.
  unfold relay_to. destruct (map_get who (userSockets s)) as [c|]; [|by intros ?%elem_of_nil].
  destruct (truthy_str c); [|by intros ?%elem_of_nil].
  intros ->%list_elem_of_singleton. by exists c.
Qed.

(** A [receive_message] leaves the server only in the step in which the
    store fulfils a pending [create] call, and carries the document of
    that call. *)
Lemma receive_message_only_on_success s i to m :
  Emit to (receive_message m) ∈ (step s i).2 →
  ∃ req k, i = store_settles req (inl m) ∧ awaiting s !! req = Some k.
Proof.
  destruct i as [c u|c p|c d|req r|c]; cbn [step].
  - cbn. by intros [=]%list_elem_of_singleton.
  - cbn. by intros [=]%list_elem_of_singleton.
  - cbn. by intros [=]%list_elem_of_singleton.
  - unfold store_settled. destruct (awaiting s !! req) as [k|] eqn:Hk;
      [|by intros ?%elem_of_nil].
    cbn [snd]. destruct r as [m'|reason]; cbn [resume].
    + rewrite elem_of_app.
      intros [[c [= _ ->]]%elem_of_relay_to|[c [= _ ->]]%elem_of_relay_to];
        by exists req, k.
    + by intros [=]%list_elem_of_singleton.
  - unfold disconnect. destruct (find_socket c (userSockets s)) as [u|];
      [|by intros ?%elem_of_nil].
    cbn [snd]. destruct (truthy u); [|by intros ?%elem_of_nil].
    rewrite !elem_of_cons, elem_of_nil. by intros [[=]|[[=]|[]]].
Qed.

(** C3: in every history of the server, a step that emits a
    [receive_message] (to whatever connection) is the step in which the
    store fulfils a [create] call with that very document, and the
    request that made the call is an earlier step of the history, which
    emitted nothing but the store call. So no delivery precedes the
    successful persistence of what is delivered. *)
Theorem C3_delivery_follows_persistence inputs n i acts to m :
  run initializeSocket inputs !! n = Some (i, acts) →
  Emit to (receive_message m) ∈ acts →
  ∃ req j socket data,
    i = store_settles req (inl m) ∧
    j < n ∧
    run initializeSocket inputs !! j
      = Some (recv_send_message socket data, [create_call req data]).
Proof.
  intros [Hi ->]%run_lookup [req [k [-> Hk]]]%receive_message_only_on_success.
  destruct (awaiting_issued _ _ _ Hk) as (j & data & Hj & _).
  exists req, j, (k_socket k), data. split; [done|].
  rewrite run_take in Hj. apply lookup_take_Some in Hj as [Hj Hlt].
  by split.
Qed.

Lemma C3_delivery_follows_persistence_witness :
  run initializeSocket (alice_writes_to_absent_bob ++ [store_settles 0 (inl stored_hi)]) !! 2
    = Some (store_settles 0 (inl stored_hi),
            [Emit (ToSocket tab1) (receive_message stored_hi)]) ∧
  ∃ req j socket data,
    store_settles 0 (inl stored_hi) = store_settles req (inl stored_hi) ∧
    j < 2 ∧
    run initializeSocket (alice_writes_to_absent_bob ++ [store_settles 0 (inl stored_hi)]) !! j
      = Some (recv_send_message socket data, [create_call req data]).
Proof.
  split; [reflexivity|].
  apply (C3_delivery_follows_persistence
           (alice_writes_to_absent_bob ++ [store_settles 0 (inl stored_hi)])
           2 (store_settles 0 (inl stored_hi))
           [Emit (ToSocket tab1) (receive_message stored_hi)]
           (ToSocket tab1) stored_hi).
  - reflexivity.
  - apply list_elem_of_here.
Defined.

Lemma relay_to_registered who c message s :
  map_get who (userSockets s) = Some c → c ≠ [] →
  relay_to who message s = [Emit (ToSocket c) (receive_message message)].
Proof. unfold relay_to. intros -> Hc. by destruct c. Qed.

Lemma relay_to_absent who message s :
  map_get who (userSockets s) = None → relay_to who message s = [].
Proof. unfold relay_to. by intros ->. Qed.

(** C4: a request whose sender is registered and whose receiver is
    not, once the store has created the document: the request made the
    store call, and on its success the handler emits exactly one event,
    the [receive_message] with the document to the sender's registered
    connection; there is no [message_error] and no broadcast. *)
Theorem C4_offline_receiver inputs req k c m :
  Forall input_ok inputs →
  awaiting (exec initializeSocket inputs) !! req = Some k →
  map_get (k_senderId k) (userSockets (exec initializeSocket inputs)) = Some c →
  map_get (k_receiverId k) (userSockets (exec initializeSocket inputs)) = None →
  (∃ j data,
     run initializeSocket inputs !! j
       = Some (recv_send_message (k_socket k) data, [create_call req data]) ∧
     get_field data "senderId" = k_senderId k ∧
     get_field data "receiverId" = k_receiverId k) ∧
  (step (exec initializeSocket inputs) (store_settles req (inl m))).2
    = [Emit (ToSocket c) (receive_message m)] ∧
  emissions name_receive_message
    (step (exec initializeSocket inputs) (store_settles req (inl m))).2
    = [(ToSocket c, receive_message m)] ∧
  emissions name_message_error
    (step (exec initializeSocket inputs) (store_settles req (inl m))).2 = [] ∧
  broadcasts (step (exec initializeSocket inputs) (store_settles req (inl m))).2 = [].
Proof.
  intros Hok Hk HA HB. split.
  { destruct (awaiting_issued _ _ _ Hk) as (j & data & Hj & ? & ?). eauto. }
  assert (c ≠ []) as Hc.
  { eapply (sockets_named_exec inputs Hok). by eapply map_get_Some_elem. }
  assert ((step (exec initializeSocket inputs) (store_settles req (inl m))).2
          = [Emit (ToSocket c) (receive_message m)]) as ->.
  { cbn [step]. unfold store_settled. rewrite Hk. cbn [snd resume].
    by rewrite (relay_to_absent _ _ _ HB), (relay_to_registered _ _ _ _ HA Hc). }
  done.
Qed.

Lemma C4_offline_receiver_witness :
  Forall input_ok alice_writes_to_absent_bob ∧
  awaiting (exec initializeSocket alice_writes_to_absent_bob) !! 0
    = Some {| k_socket := tab1; k_senderId := alice; k_receiverId := bob |} ∧
  map_get alice (userSockets (exec initializeSocket alice_writes_to_absent_bob))
    = Some tab1 ∧
  map_get bob (userSockets (exec initializeSocket alice_writes_to_absent_bob)) = None ∧
  (step (exec initializeSocket alice_writes_to_absent_bob)
     (store_settles 0 (inl stored_hi))).2
  = [Emit (ToSocket tab1) (receive_message stored_hi)].
Proof.
  assert (Forall input_ok alice_writes_to_absent_bob) as Hok.
  { repeat constructor; by vm_compute. }
  split_and!; [exact Hok | reflexivity | reflexivity | reflexivity |].
  apply (C4_offline_receiver alice_writes_to_absent_bob 0
           {| k_socket := tab1; k_senderId := alice; k_receiverId := bob |}
           tab1 stored_hi Hok); reflexivity.
Defined.

(** ** Presence *)

(** C5: in whatever state the server is, two registrations of the
    same user one after the other, from any two sockets, leave exactly
    one entry for the user in the registry, and the [users_online] list
    that the second one broadcasts holds the user exactly once. *)
Theorem C5_register_twice inputs u c1 c2 :
  let s := exec initializeSocket inputs in
  let s1 := (user_connected c1 u s).1 in
  let after := user_connected c2 u s1 in
  map_count u (userSockets after.1) = 1 ∧
  map_get u (userSockets after.1) = Some c2 ∧
  ∃ ids, after.2 = [Emit ToAll (users_online ids)] ∧ occurrences u ids = 1.
Proof.
  intros s s1 after.
  assert (well_formed after.1) as [Hnd _ _].
  { apply (well_formed_step s1 (recv_user_connected c2 u)),
      (well_formed_step s (recv_user_connected c1 u)),
      well_formed_exec, well_formed_init. }
  assert (u ∈ map_keys (userSockets after.1)) as Hin.
  { apply elem_of_map_keys_set. by left. }
  split_and!.
  - rewrite map_count_occurrences. by apply occurrences_NoDup.
  - apply map_get_set_eq.
  - eexists. split; [reflexivity|]. by apply occurrences_NoDup.
Qed.

(** C6: the cleanup for a socket id that is not a value of the
    registry changes nothing and emits nothing. *)
Theorem C6_disconnect_unknown_socket s c :
  c ∉ map_values (userSockets s) → disconnect c s = (s, []).
Proof. intros Hc%find_socket_None. unfold disconnect. by rewrite Hc. Qed.

Lemma C6_disconnect_unknown_socket_witness :
  (tab2 ∉ map_values (userSockets (exec initializeSocket [recv_user_connected tab1 alice]))) ∧
  disconnect tab2 (exec initializeSocket [recv_user_connected tab1 alice])
  = (exec initializeSocket [recv_user_connected tab1 alice], []).
Proof.
  assert (tab2 ∉ map_values
            (userSockets (exec initializeSocket [recv_user_connected tab1 alice]))) as H.
  { apply (bool_decide_unpack _). vm_compute. exact I. }
  split; [exact H|].
  apply (C6_disconnect_unknown_socket _ tab2 H).
Defined.

(** C7: an [update_activity] emits no [users_online] and leaves the
    registry as it was; a [user_connected] and a [disconnect] emit no
    [activity_updated]. *)
Theorem C7_presence_and_activity_apart s socket :
  (∀ payload,
     emissions name_users_online (update_activity socket payload s).2 = [] ∧
     userSockets (update_activity socket payload s).1 = userSockets s) ∧
  (∀ clerkId,
     emissions name_activity_updated (user_connected socket clerkId s).2 = []) ∧
  emissions name_activity_updated (disconnect socket s).2 = [].
Proof.
  split_and!; [done | done |].
  unfold disconnect. destruct (find_socket socket (userSockets s)) as [u|]; [|done].
  cbn [snd]. by destruct (truthy u).
Qed.

(** C10: after any sequence of inputs from the initial state, every
    key of the registry is a key of the activity map. *)
Theorem C10_registered_users_have_activity inputs :
  map_keys (userSockets (exec initializeSocket inputs))
    ⊆ map_keys (userActivities (exec initializeSocket inputs)).
Proof. apply well_formed_exec, well_formed_init. Qed.

(** ** The client's store *)

Lemma set_messages_neq st (m : Message) :
  Client.set_messages (Client.messages st ++ [m]) st ≠ st.
Proof.
  intros H. apply (f_equal Client.messages) in H. cbn in H.
  apply (f_equal length) in H. rewrite length_app in H. cbn in H. lia.
Qed.

(** The test of the [receive_message] listener is the one the
    specification words. *)
Lemma receive_message_test userId (m : Message) st :
  in_selected_conversation userId (Client.selectedUser st) m ↔
  ((bool_decide (Some (senderId m) = Client.clerkId <$> Client.selectedUser st)
      && bool_decide (receiverId m = userId))
   || (bool_decide (Some (receiverId m) = Client.clerkId <$> Client.selectedUser st)
         && bool_decide (senderId m = userId))) = true.
Proof.
  unfold in_selected_conversation.
  rewrite orb_true_iff, !andb_true_iff, !bool_decide_eq_true.
  destruct (Client.selectedUser st) as [u|]; cbn.
  - split.
    + intros (u' & [= <-] & [[-> ->]|[-> ->]]); [by left | by right].
    + intros [[[= ->] ->]|[[= ->] ->]]; exists u; split; auto.
  - split; [by intros (u' & [=] & _) | by intros [[[=] _]|[[=] _]]].
Qed.

(** A client that called [initSocket] once has one listener for
    [receive_message]. *)
Lemma deliver_receive_message_once userId m st :
  Client.store
    (Client.deliver (receive_message m)
       {| Client.store := st; Client.registered := [userId] |})
  = Client.on_receive_message userId m st.
Proof. reflexivity. Qed.

(** C8: the [receive_message] listener appends the message to
    [messages] exactly when the message belongs to the selected
    conversation with the local user as one end, and then changes
    nothing else; otherwise it leaves the whole store as it was. *)
Theorem C8_receive_message_filter userId m st :
  (in_selected_conversation userId (Client.selectedUser st) m ↔
   Client.messages (Client.on_receive_message userId m st) = Client.messages st ++ [m]) ∧
  (in_selected_conversation userId (Client.selectedUser st) m ↔
   Client.on_receive_message userId m st
     = Client.set_messages (Client.messages st ++ [m]) st) ∧
  (¬ in_selected_conversation userId (Client.selectedUser st) m ↔
   Client.on_receive_message userId m st = st).
Proof.
  pose proof (receive_message_test userId m st) as Ht.
  pose proof (set_messages_neq st m) as Hneq.
  unfold Client.on_receive_message. cbv zeta.
  destruct ((bool_decide (Some (senderId m) = Client.clerkId <$> Client.selectedUser st)
               && bool_decide (receiverId m = userId))
            || (bool_decide (Some (receiverId m) = Client.clerkId <$> Client.selectedUser st)
                  && bool_decide (senderId m = userId))).
  - split_and!; [tauto | tauto |]. split; [tauto | done].
  - assert (¬ in_selected_conversation userId (Client.selectedUser st) m) as Hn.
    { rewrite Ht. done. }
    split_and!; [| |tauto].
    + split; [tauto|]. intros H. exfalso.
      apply (f_equal length) in H. rewrite length_app in H. cbn in H. lia.
    + split; [tauto|]. intros H. by destruct Hneq.
Qed.

Lemma trimStart_white_space (s : jsstring) :
  Forall (λ c, is_white_space c = true) s → trimStart s = [].
Proof. induction 1 as [|c s Hc _ IH]; [done|]. cbn [trimStart]. by rewrite Hc. Qed.

Lemma trim_white_space (s : jsstring) :
  Forall (λ c, is_white_space c = true) s → trim s = [].
Proof. intros H. unfold trim. by rewrite (trimStart_white_space s H). Qed.

(** C9: [sendMessage] with a content that is empty or made of white
    space only emits nothing on the socket and returns the store as it
    was. *)
Theorem C9_blank_message_not_sent receiverId senderId (content : jsstring) st :
  Forall (λ c, is_white_space c = true) content →
  Client.sendMessage receiverId senderId content st = (st, []).
Proof.
  intros H. unfold Client.sendMessage. rewrite (trim_white_space content H).
  cbn [truthy_str negb]. by rewrite orb_true_r.
Qed.

Lemma C9_blank_message_not_sent_witness :
  Forall (λ c, is_white_space c = true) [0x20; 0x09; 0xA0; 0x0A]%N ∧
  Client.sendMessage (js "bob") (js "alice") [0x20; 0x09; 0xA0; 0x0A]%N
    Client.useChatStore
  = (Client.useChatStore, []).
Proof.
  assert (Forall (λ c, is_white_space c = true) [0x20; 0x09; 0xA0; 0x0A]%N) as H.
  { repeat constructor. }
  split; [exact H|].
  apply (C9_blank_message_not_sent (js "bob") (js "alice") _ Client.useChatStore H).
Defined.

(** ** The scenario of the specification, end to end *)

(** Alice and Bob connect, Alice writes to Bob, the store creates the
    document, Bob disconnects. *)
Example end_to_end :
  run initializeSocket
    [recv_user_connected tab1 alice;
     recv_user_connected tab2 bob;
     recv_send_message tab1 hi_from_alice_to_bob;
     store_settles 0 (inl stored_hi);
     recv_disconnect tab2]
  = [(recv_user_connected tab1 alice, [Emit ToAll (users_online [alice])]);
     (recv_user_connected tab2 bob, [Emit ToAll (users_online [alice; bob])]);
     (recv_send_message tab1 hi_from_alice_to_bob,
      [create_call 0 hi_from_alice_to_bob]);
     (store_settles 0 (inl stored_hi),
      [Emit (ToSocket tab2) (receive_message stored_hi);
       Emit (ToSocket tab1) (receive_message stored_hi)]);
     (recv_disconnect tab2,
      [Emit ToAll (user_disconnected bob); Emit ToAll (users_online [alice])])]
  ∧ userActivities
      (exec initializeSocket
         [recv_user_connected tab1 alice;
          recv_user_connected tab2 bob;
          recv_send_message tab1 hi_from_alice_to_bob;
          store_settles 0 (inl stored_hi);
          recv_disconnect tab2])
    = [(alice, JStr (js "Online"))].
Proof. split; reflexivity. Qed.

(** ** More on [Map] *)

Lemma map_get_delete_eq {V} k (m : jsmap V) : map_get k (map_delete k m) = None.
Proof.
  apply map_get_None. intros [? _]%elem_of_map_keys_delete. done.
Qed.

Lemma map_get_delete_ne {V} k k' (m : jsmap V) :
  k ≠ k' → map_get k' (map_delete k m) = map_get k' m.
Proof.
  intros Hne. unfold map_delete. induction m as [|[k0 v0] m IH]; [done|].
  rewrite filter_cons. cbn [fst map_get].
  destruct (decide (k0 = k)) as [->|Hk].
  - rewrite decide_False by (by intros ?). by rewrite decide_False.
  - rewrite decide_True by done. cbn [map_get]. by rewrite IH.
Qed.

Lemma map_get_elem_of {V} k (v : V) (m : jsmap V) :
  NoDup (map_keys m) → (k, v) ∈ m → map_get k m = Some v.
Proof.
  unfold map_keys. induction m as [|[k0 v0] m IH]; [by intros _ ?%elem_of_nil|].
  rewrite fmap_cons, NoDup_cons, elem_of_cons. cbn [fst map_get].
  intros [Hnin Hnd] [[= <- <-]|Hin].
  - by rewrite decide_True.
  - rewrite decide_False; [by apply IH|].
    intros ->. apply Hnin. apply list_elem_of_fmap. by exists (k, v).
Qed.

(** On a map with one entry for each key, [set] leaves no other entry
    under the key it writes. *)
Lemma elem_of_map_set_inv {V} (e : jsval * V) k v (m : jsmap V) :
  NoDup (map_keys m) →
  e ∈ map_set k v m → e = (k, v) ∨ (e ∈ m ∧ e.1 ≠ k).
Proof.
  unfold map_keys. induction m as [|[k0 v0] m IH]; cbn [map_set].
  - intros _ ->%list_elem_of_singleton. by left.
  - rewrite fmap_cons, NoDup_cons. cbn [fst]. intros [Hnin Hnd].
    destruct (decide (k0 = k)) as [->|Hk]; rewrite !elem_of_cons.
    + intros [->|Hin]; [by left|]. right. split; [by right|].
      intros Heq. apply Hnin. apply list_elem_of_fmap. exists e. by split.
    + intros [->|Hin]; [right; split; [by left | done]|].
      destruct (IH Hnd Hin) as [->|[? ?]]; [by left|]. right. split; [by right | done].
Qed.

Lemma length_map_delete {V} k (m : jsmap V) :
  NoDup (map_keys m) → k ∈ map_keys m →
  S (length (map_delete k m)) = length m.
Proof.
  unfold map_keys, map_delete. induction m as [|[k0 v0] m IH];
    [by intros _ ?%elem_of_nil|].
  rewrite fmap_cons, NoDup_cons, elem_of_cons. cbn [fst].
  intros [Hnin Hnd] Hin. rewrite filter_cons. cbn [fst].
  destruct (decide (k0 = k)) as [->|Hk].
  - rewrite decide_False by (by intros ?). cbn [length]. f_equal.
    clear IH Hin Hnd. induction m as [|[k1 v1] m IH]; [done|].
    rewrite fmap_cons, not_elem_of_cons in Hnin. destruct Hnin as [Hne Hnin].
    rewrite filter_cons. cbn [fst] in *. rewrite decide_True by done.
    cbn [length]. f_equal. by apply IH.
  - rewrite decide_True by done. cbn [length]. f_equal. apply IH; [done|].
    destruct Hin as [->|?]; done.
Qed.

Lemma find_socket_Some id u (m : jsmap jsstring) :
  find_socket id m = Some u → (u, id) ∈ m.
Proof.
  induction m as [|[u' c] m IH]; cbn [find_socket]; [done|].
  destruct (decide (c = id)) as [->|Hne].
  - intros [= ->]. apply list_elem_of_here.
  - intros H. by apply list_elem_of_further, IH.
Qed.

Lemma find_socket_is_Some id (m : jsmap jsstring) :
  id ∈ map_values m → is_Some (find_socket id m).
Proof.
  intros Hin. destruct (find_socket id m) as [u|] eqn:E; [by exists u|].
  by apply find_socket_None in E.
Qed.

Lemma exec_take_S inputs n i s :
  inputs !! n = Some i →
  exec s (take (S n) inputs) = (step (exec s (take n inputs)) i).1.
Proof. intros Hi. by rewrite (take_S_r _ _ _ Hi), exec_snoc. Qed.

(** ** The [users_online] broadcast *)

Lemma users_online_step s i to ids :
  well_formed s →
  Emit to (users_online ids) ∈ (step s i).2 →
  to = ToAll ∧ ids = map_keys (userSockets (step s i).1) ∧ NoDup ids.
Proof.
  intros Hwf Hin.
  pose proof (well_formed_step s i Hwf) as [Hnd _ _].
  destruct i as [c u|c p|c d|req r|c]; cbn [step] in *.
  - apply list_elem_of_singleton in Hin as [= -> ->]. done.
  - by apply list_elem_of_singleton in Hin.
  - by apply list_elem_of_singleton in Hin.
  - unfold store_settled in Hin. destruct (awaiting s !! req) as [k|];
      [|by apply elem_of_nil in Hin].
    cbn [snd] in Hin. destruct r as [m|reason]; cbn [resume] in Hin.
    + apply elem_of_app in Hin as [[c [=]]%elem_of_relay_to|[c [=]]%elem_of_relay_to].
    + by apply list_elem_of_singleton in Hin.
  - unfold disconnect in *. destruct (find_socket c (userSockets s)) as [u|];
      [|by apply elem_of_nil in Hin].
    cbn [fst snd] in *. destruct (truthy u); [|by apply elem_of_nil in Hin].
    rewrite !elem_of_cons, elem_of_nil in Hin.
    destruct Hin as [[=]|[[= -> ->]|[]]]. done.
Qed.

(** X1: every [users_online] event in a history of the server goes
    to all sockets and carries the keys of the registry as the step that
    emits it leaves them, each user once. *)
Theorem users_online_is_registry inputs n i acts to ids :
  run initializeSocket inputs !! n = Some (i, acts) →
  Emit to (users_online ids) ∈ acts →
  to = ToAll ∧
  ids = map_keys (userSockets (exec initializeSocket (take (S n) inputs))) ∧
  NoDup ids.
Proof.
  intros [Hi ->]%run_lookup Hin.
  rewrite (exec_take_S _ _ _ _ Hi).
  eapply users_online_step; [|done].
  apply well_formed_exec, well_formed_init.
Qed.

Lemma users_online_is_registry_witness :
  run initializeSocket [recv_user_connected tab1 alice; recv_user_connected tab2 bob] !! 1
    = Some (recv_user_connected tab2 bob, [Emit ToAll (users_online [alice; bob])]) ∧
  [alice; bob]
    = map_keys (userSockets
        (exec initializeSocket
           (take 2 [recv_user_connected tab1 alice; recv_user_connected tab2 bob]))).
Proof.
  split; [reflexivity|].
  apply (users_online_is_registry
           [recv_user_connected tab1 alice; recv_user_connected tab2 bob] 1
           (recv_user_connected tab2 bob) [Emit ToAll (users_online [alice; bob])]
           ToAll [alice; bob]).
  - reflexivity.
  - apply list_elem_of_here.
Defined.

(** X2: [user_connected] maps the user to the socket and sets the
    activity to "Online", whatever they were; the entries of every other
    user, in both maps, are as before. *)
Theorem user_connected_registers socket clerkId s :
  map_get clerkId (userSockets (user_connected socket clerkId s).1) = Some socket ∧
  map_get clerkId (userActivities (user_connected socket clerkId s).1)
    = Some (JStr (js "Online")) ∧
  ∀ other, other ≠ clerkId →
    map_get other (userSockets (user_connected socket clerkId s).1)
      = map_get other (userSockets s) ∧
    map_get other (userActivities (user_connected socket clerkId s).1)
      = map_get other (userActivities s).
Proof.
  unfold user_connected. cbn [fst userSockets userActivities].
  split_and!; [apply map_get_set_eq | apply map_get_set_eq |].
  intros other Hne. split; by apply map_get_set_ne.
Qed.

(** X3: the list that [user_connected] broadcasts is the registry's
    key list as it was when the user is registered already (a
    reconnection changes neither the members nor their order), and that
    list with the user at its end when the user is new. *)
Theorem user_connected_online_list socket clerkId s :
  (clerkId ∈ map_keys (userSockets s) →
   (user_connected socket clerkId s).2
     = [Emit ToAll (users_online (map_keys (userSockets s)))]) ∧
  (clerkId ∉ map_keys (userSockets s) →
   (user_connected socket clerkId s).2
     = [Emit ToAll (users_online (map_keys (userSockets s) ++ [clerkId]))]).
Proof.
  unfold user_connected. cbn [snd]. rewrite map_keys_set.
  split; intros H; [by rewrite decide_True | by rewrite decide_False].
Qed.

(** X4: when the socket that disconnects is registered, the handler
    removes one user, the first in registration order that holds this
    socket id: the user has no socket and no activity afterwards, the
    registry is one entry shorter, and the entries of every other user,
    in both maps, are as before. *)
Theorem disconnect_removes_one_user inputs socket u :
  find_socket socket (userSockets (exec initializeSocket inputs)) = Some u →
  map_get u (userSockets (disconnect socket (exec initializeSocket inputs)).1) = None ∧
  map_get u (userActivities (disconnect socket (exec initializeSocket inputs)).1) = None ∧
  S (length (userSockets (disconnect socket (exec initializeSocket inputs)).1))
    = length (userSockets (exec initializeSocket inputs)) ∧
  ∀ other, other ≠ u →
    map_get other (userSockets (disconnect socket (exec initializeSocket inputs)).1)
      = map_get other (userSockets (exec initializeSocket inputs)) ∧
    map_get other (userActivities (disconnect socket (exec initializeSocket inputs)).1)
      = map_get other (userActivities (exec initializeSocket inputs)).
Proof.
  intros Hfind.
  pose proof (well_formed_exec initializeSocket inputs well_formed_init) as [Hnd _ _].
  unfold disconnect. rewrite Hfind. cbn [fst userSockets userActivities].
  split_and!; [apply map_get_delete_eq | apply map_get_delete_eq | |].
  - apply length_map_delete; [done|].
    apply list_elem_of_fmap. exists (u, socket). split; [done|].
    by apply find_socket_Some.
  - intros other Hne. split; by apply map_get_delete_ne.
Qed.

Lemma disconnect_removes_one_user_witness :
  find_socket tab2
    (userSockets (exec initializeSocket
                    [recv_user_connected tab1 alice; recv_user_connected tab2 bob]))
    = Some bob ∧
  map_get bob
    (userSockets
       (disconnect tab2
          (exec initializeSocket
             [recv_user_connected tab1 alice; recv_user_connected tab2 bob])).1)
    = None.
Proof.
  split; [reflexivity|].
  apply (disconnect_removes_one_user
           [recv_user_connected tab1 alice; recv_user_connected tab2 bob] tab2 bob).
  reflexivity.
Defined.

(** X5: when the user found for the socket is [undefined] or the
    empty string, the handler deletes the user from both maps and
    emits nothing: no [user_disconnected] and no [users_online]. *)
Theorem disconnect_falsy_user_silent s socket u :
  find_socket socket (userSockets s) = Some u →
  truthy u = false →
  (disconnect socket s).2 = [] ∧
  (u ∉ map_keys (userSockets (disconnect socket s).1)) ∧
  (u ∉ map_keys (userActivities (disconnect socket s).1)).
Proof.
  intros Hfind Hu. unfold disconnect. rewrite Hfind, Hu.
  cbn [fst snd userSockets userActivities].
  split_and!; [done | |]; by intros [? _]%elem_of_map_keys_delete.
Qed.

Lemma disconnect_falsy_user_silent_witness :
  find_socket tab1
    (userSockets (exec initializeSocket [recv_user_connected tab1 (JStr [])]))
    = Some (JStr []) ∧
  truthy (JStr []) = false ∧
  (disconnect tab1 (exec initializeSocket [recv_user_connected tab1 (JStr [])])).2 = [].
Proof.
  split_and!; [reflexivity | reflexivity |].
  apply (disconnect_falsy_user_silent
           (exec initializeSocket [recv_user_connected tab1 (JStr [])]) tab1 (JStr []));
    reflexivity.
Defined.

(** ** One user on two sockets, two users on one socket *)

(** The registry after a user registers from one socket and then from
    another. *)
Lemma registered_twice_entries s u c1 c2 w c :
  NoDup (map_keys (userSockets s)) →
  (w, c) ∈ userSockets (user_connected c2 u (user_connected c1 u s).1).1 →
  (w, c) = (u, c2) ∨ ((w, c) ∈ userSockets s ∧ w ≠ u).
Proof.
  intros Hnd. unfold user_connected. cbn [fst userSockets].
  intros [?|[Hin Hne]]%elem_of_map_set_inv; [by left | |by apply NoDup_map_keys_set].
  apply elem_of_map_set_inv in Hin as [[= -> ->]|[? ?]]; [done | by right | done].
Qed.

(** X6: a user registers from a socket and then from a second one
    (a second tab). When the first socket disconnects, nothing happens:
    the user stays registered with the second socket and nothing is
    emitted. *)
Theorem older_socket_disconnect_ignored inputs u c1 c2 :
  c1 ≠ c2 →
  (c1 ∉ map_values (userSockets (exec initializeSocket inputs))) →
  disconnect c1
    (user_connected c2 u (user_connected c1 u (exec initializeSocket inputs)).1).1
  = ((user_connected c2 u (user_connected c1 u (exec initializeSocket inputs)).1).1, []).
Proof.
  intros Hne Hfresh.
  pose proof (well_formed_exec initializeSocket inputs well_formed_init) as [Hnd _ _].
  unfold disconnect at 1.
  assert (find_socket c1
            (userSockets
               (user_connected c2 u (user_connected c1 u (exec initializeSocket inputs)).1).1)
          = None) as ->; [|done].
  apply find_socket_None.
  intros [[w c] [Hc Hin]]%list_elem_of_fmap. cbn [snd] in Hc. subst c.
  apply registered_twice_entries in Hin as [[= _ ->]|[Hin _]]; [done | | done].
  apply Hfresh. apply list_elem_of_fmap. by exists (w, c1).
Qed.

Lemma older_socket_disconnect_ignored_witness :
  tab1 ≠ tab2 ∧
  (tab1 ∉ map_values (userSockets (exec initializeSocket []))) ∧
  disconnect tab1
    (user_connected tab2 alice (user_connected tab1 alice (exec initializeSocket [])).1).1
  = ((user_connected tab2 alice (user_connected tab1 alice (exec initializeSocket [])).1).1,
     []).
Proof.
  assert (tab1 ≠ tab2) as H1 by (by vm_compute).
  assert (tab1 ∉ map_values (userSockets (exec initializeSocket []))) as H2
    by apply not_elem_of_nil.
  split_and!; [exact H1 | exact H2 |].
  apply (older_socket_disconnect_ignored [] alice tab1 tab2 H1 H2).
Defined.

(** X7: a user registers from a socket and then from a second one
    that nobody else holds. When the second socket disconnects, the user
    is removed from the registry and announced as disconnected, though
    the first socket has not disconnected. *)
Theorem newer_socket_disconnect_removes_user inputs u c1 c2 :
  truthy u = true →
  (c2 ∉ map_values (userSockets (exec initializeSocket inputs))) →
  (disconnect c2
     (user_connected c2 u (user_connected c1 u (exec initializeSocket inputs)).1).1).2
  = [Emit ToAll (user_disconnected u);
     Emit ToAll
       (users_online
          (map_keys
             (userSockets
                (disconnect c2
                   (user_connected c2 u
                      (user_connected c1 u (exec initializeSocket inputs)).1).1).1)))] ∧
  map_get u
    (userSockets
       (disconnect c2
          (user_connected c2 u (user_connected c1 u (exec initializeSocket inputs)).1).1).1)
  = None.
Proof.
  intros Hu Hfresh.
  pose proof (well_formed_exec initializeSocket inputs well_formed_init) as [Hnd _ _].
  set (s2 := (user_connected c2 u (user_connected c1 u (exec initializeSocket inputs)).1).1).
  assert (find_socket c2 (userSockets s2) = Some u) as Hfind.
  { destruct (find_socket_is_Some c2 (userSockets s2)) as [w Hw].
    - apply list_elem_of_fmap. exists (u, c2). split; [done|].
      apply map_get_Some_elem. apply map_get_set_eq.
    - rewrite Hw. f_equal.
      apply find_socket_Some, registered_twice_entries in Hw as [[= -> ]|[Hin _]];
        [done | | done].
      destruct Hfresh. apply list_elem_of_fmap. by exists (w, c2). }
  unfold disconnect. rewrite Hfind, Hu. cbn [fst snd userSockets].
  split; [reflexivity | apply map_get_delete_eq].
Qed.

Lemma newer_socket_disconnect_removes_user_witness :
  truthy alice = true ∧
  (tab2 ∉ map_values (userSockets (exec initializeSocket []))) ∧
  map_get alice
    (userSockets
       (disconnect tab2
          (user_connected tab2 alice
             (user_connected tab1 alice (exec initializeSocket [])).1).1).1)
  = None.
Proof.
  assert (tab2 ∉ map_values (userSockets (exec initializeSocket []))) as H2
    by apply not_elem_of_nil.
  split_and!; [reflexivity | exact H2 |].
  apply (newer_socket_disconnect_removes_user [] alice tab1 tab2 eq_refl H2).
Defined.

(** X8: one socket registers two different users, and no one else
    holds that socket id. When the socket disconnects, the loop stops at
    the first of the two in the registry's order: exactly one of them is
    removed, and the other stays registered with the socket that has
    gone. *)
Theorem socket_with_two_users_leaves_one s c u1 u2 :
  u1 ≠ u2 →
  (c ∉ map_values (userSockets s)) →
  (map_get u1
     (userSockets (disconnect c (user_connected c u2 (user_connected c u1 s).1).1).1)
     = None ∧
   map_get u2
     (userSockets (disconnect c (user_connected c u2 (user_connected c u1 s).1).1).1)
     = Some c) ∨
  (map_get u1
     (userSockets (disconnect c (user_connected c u2 (user_connected c u1 s).1).1).1)
     = Some c ∧
   map_get u2
     (userSockets (disconnect c (user_connected c u2 (user_connected c u1 s).1).1).1)
     = None).
Proof.
  intros Hne Hfresh.
  set (s2 := (user_connected c u2 (user_connected c u1 s).1).1).
  assert (map_get u2 (userSockets s2) = Some c) as H2 by apply map_get_set_eq.
  assert (map_get u1 (userSockets s2) = Some c) as H1.
  { unfold s2, user_connected. cbn [fst userSockets].
    rewrite map_get_set_ne by done. apply map_get_set_eq. }
  destruct (find_socket_is_Some c (userSockets s2)) as [w Hw].
  { apply list_elem_of_fmap. exists (u2, c). split; [done|].
    by apply map_get_Some_elem. }
  assert (w = u1 ∨ w = u2) as Hcases.
  { apply find_socket_Some in Hw. unfold s2, user_connected in Hw.
    cbn [fst userSockets] in Hw.
    apply elem_of_map_set in Hw as [[= ->]|Hw]; [by right|].
    apply elem_of_map_set in Hw as [[= ->]|Hw]; [by left|].
    destruct Hfresh. apply list_elem_of_fmap. by exists (w, c). }
  unfold disconnect. rewrite Hw. cbn [fst userSockets].
  destruct Hcases as [->| ->].
  - left. split; [apply map_get_delete_eq|]. by rewrite map_get_delete_ne.
  - right. split; [|apply map_get_delete_eq].
    rewrite map_get_delete_ne; [done | by intros ?].
Qed.

Lemma socket_with_two_users_leaves_one_witness :
  alice ≠ bob ∧
  (tab1 ∉ map_values (userSockets initializeSocket)) ∧
  map_get bob
    (userSockets
       (disconnect tab1
          (user_connected tab1 bob (user_connected tab1 alice initializeSocket).1).1).1)
  = Some tab1.
Proof.
  assert (alice ≠ bob) as H1 by (by vm_compute).
  assert (tab1 ∉ map_values (userSockets initializeSocket)) as H2
    by apply not_elem_of_nil.
  split_and!; [exact H1 | exact H2 |].
  destruct (socket_with_two_users_leaves_one initializeSocket tab1 alice bob H1 H2)
    as [[_ H]|[_ H]]; [exact H | reflexivity].
Defined.

(** ** Activities *)

(** X9: [update_activity] writes the activity under the [clerkId] of
    its payload and leaves the activity of every other user as it was.
    It does not look at the socket that sent it, nor at the registry. *)
Theorem update_activity_sets_activity socket payload s :
  map_get (get_field payload "clerkId")
    (userActivities (update_activity socket payload s).1)
    = Some (get_field payload "activity") ∧
  (∀ other, other ≠ get_field payload "clerkId" →
     map_get other (userActivities (update_activity socket payload s).1)
       = map_get other (userActivities s)) ∧
  ∀ socket', update_activity socket' payload s = update_activity socket payload s.
Proof.
  unfold update_activity. cbn [fst userActivities].
  split_and!; [apply map_get_set_eq | | done].
  intros other Hne. apply map_get_set_ne. by intros ?.
Qed.

Lemma disconnect_keeps_unregistered_activity s c u a :
  u ∉ map_keys (userSockets s) →
  map_get u (userActivities s) = Some a →
  (u ∉ map_keys (userSockets (disconnect c s).1)) ∧
  map_get u (userActivities (disconnect c s).1) = Some a.
Proof.
  intros Hu Ha. unfold disconnect.
  destruct (find_socket c (userSockets s)) as [w|] eqn:Hw; [|done].
  cbn [fst userSockets userActivities]. split.
  - by intros [_ ?]%elem_of_map_keys_delete.
  - rewrite map_get_delete_ne; [done|]. intros ->. apply Hu.
    apply list_elem_of_fmap. exists (u, c). split; [done|].
    by apply find_socket_Some.
Qed.

(** X10: an activity set for a user who is not registered is never
    removed by a disconnection: after any number of sockets have
    disconnected, the activity map still holds it. *)
Theorem unregistered_activity_stays socket payload s later :
  (get_field payload "clerkId" ∉ map_keys (userSockets s)) →
  Forall is_disconnect later →
  map_get (get_field payload "clerkId")
    (userActivities (exec (update_activity socket payload s).1 later))
  = Some (get_field payload "activity").
Proof.
  intros Hu Hlater.
  assert (get_field payload "clerkId"
            ∉ map_keys (userSockets (update_activity socket payload s).1)) as Hu' by done.
  assert (map_get (get_field payload "clerkId")
            (userActivities (update_activity socket payload s).1)
          = Some (get_field payload "activity")) as Ha by apply map_get_set_eq.
  revert Hu' Ha. generalize (update_activity socket payload s).1 as s1.
  induction Hlater as [|i later Hi _ IH]; intros s1 Hu' Ha; [done|].
  destruct i as [| | | |c]; try done. cbn [exec step].
  destruct (disconnect_keeps_unregistered_activity s1 c _ _ Hu' Ha) as [? ?].
  by apply IH.
Qed.

Lemma unregistered_activity_stays_witness :
  (get_field alice_listening_clerkId "clerkId"
     ∉ map_keys (userSockets (exec initializeSocket [recv_user_connected tab2 bob]))) ∧
  Forall is_disconnect [recv_disconnect tab2; recv_disconnect tab1] ∧
  map_get (get_field alice_listening_clerkId "clerkId")
    (userActivities
       (exec (update_activity tab1 alice_listening_clerkId
                (exec initializeSocket [recv_user_connected tab2 bob])).1
          [recv_disconnect tab2; recv_disconnect tab1]))
  = Some (get_field alice_listening_clerkId "activity").
Proof.
  assert (get_field alice_listening_clerkId "clerkId"
            ∉ map_keys (userSockets (exec initializeSocket [recv_user_connected tab2 bob])))
    as H1.
  { apply (bool_decide_unpack _). vm_compute. exact I. }
  assert (Forall is_disconnect [recv_disconnect tab2; recv_disconnect tab1]) as H2.
  { repeat constructor. }
  split_and!; [exact H1 | exact H2 |].
  apply (unregistered_activity_stays tab1 alice_listening_clerkId _ _ H1 H2).
Defined.

(** ** Who gets what from the relay *)

Lemma broadcasts_app acts1 acts2 :
  broadcasts (acts1 ++ acts2) = broadcasts acts1 ++ broadcasts acts2.
Proof.
  induction acts1 as [|[[|c] e|] acts1 IH]; cbn [app broadcasts]; [done | | done..].
  by rewrite IH.
Qed.

Lemma broadcasts_relay_to who message s : broadcasts (relay_to who message s) = [].
Proof.
  unfold relay_to. destruct (map_get who (userSockets s)) as [c|]; [|done].
  by destruct (truthy_str c).
Qed.

(** X11: what the server emits to all sockets is a [users_online], an
    [activity_updated] or a [user_disconnected]; a [receive_message] or
    a [message_error] is never broadcast. *)
Theorem broadcasts_carry_no_message s i e :
  e ∈ broadcasts (step s i).2 →
  name_of e = name_users_online ∨
  name_of e = name_activity_updated ∨
  name_of e = name_user_disconnected.
Proof.
  destruct i as [c u|c p|c d|req r|c]; cbn [step].
  - cbn. intros ->%list_elem_of_singleton. by left.
  - cbn. intros ->%list_elem_of_singleton. right. by left.
  - cbn. by intros ?%elem_of_nil.
  - unfold store_settled. destruct (awaiting s !! req) as [k|];
      [|by intros ?%elem_of_nil].
    cbn [snd]. destruct r as [m|reason]; cbn [resume].
    + rewrite broadcasts_app, !broadcasts_relay_to. by intros ?%elem_of_nil.
    + by intros ?%elem_of_nil.
  - unfold disconnect. destruct (find_socket c (userSockets s)) as [u|];
      [|by intros ?%elem_of_nil].
    cbn [snd]. destruct (truthy u); [|by intros ?%elem_of_nil].
    cbn [broadcasts]. rewrite !elem_of_cons, elem_of_nil.
    intros [->|[->|[]]]; [by right; right | by left].
Qed.

Lemma broadcasts_carry_no_message_witness :
  (users_online [alice] ∈ broadcasts (step initializeSocket (recv_user_connected tab1 alice)).2) ∧
  (name_of (users_online [alice]) = name_users_online ∨
   name_of (users_online [alice]) = name_activity_updated ∨
   name_of (users_online [alice]) = name_user_disconnected).
Proof.
  assert (users_online [alice]
            ∈ broadcasts (step initializeSocket (recv_user_connected tab1 alice)).2) as H
    by apply list_elem_of_here.
  split; [exact H|].
  apply (broadcasts_carry_no_message initializeSocket (recv_user_connected tab1 alice) _ H).
Defined.

Lemma elem_of_relay_to_registered c m who message s :
  Emit (ToSocket c) (receive_message m) ∈ relay_to who message s →
  m = message ∧ map_get who (userSockets s) = Some c.
Proof.
  unfold relay_to. destruct (map_get who (userSockets s)) as [c'|];
    [|by intros ?%elem_of_nil].
  destruct (truthy_str c'); [|by intros ?%elem_of_nil].
  by intros [= -> ->]%list_elem_of_singleton.
Qed.

(** X12: a [receive_message] is emitted only to a socket that the
    registry, read when the store answers, holds for the receiver or for
    the sender that the request named. *)
Theorem receive_message_recipients s i to m :
  Emit to (receive_message m) ∈ (step s i).2 →
  ∃ req k c,
    i = store_settles req (inl m) ∧
    awaiting s !! req = Some k ∧
    to = ToSocket c ∧
    (map_get (k_receiverId k) (userSockets s) = Some c ∨
     map_get (k_senderId k) (userSockets s) = Some c).
Proof.
  intros Hin.
  destruct (receive_message_only_on_success _ _ _ _ Hin) as (req & k & -> & Hk).
  cbn [step] in Hin. unfold store_settled in Hin. rewrite Hk in Hin.
  cbn [snd resume] in Hin. exists req, k.
  apply elem_of_app in Hin as [Hin|Hin];
    destruct (elem_of_relay_to _ _ _ _ Hin) as [c [= ->]];
    apply elem_of_relay_to_registered in Hin as [_ Hc];
    exists c; auto.
Qed.

Lemma receive_message_recipients_witness :
  (Emit (ToSocket tab1) (receive_message stored_hi)
     ∈ (step (exec initializeSocket alice_writes_to_absent_bob)
          (store_settles 0 (inl stored_hi))).2) ∧
  ∃ req k c,
    store_settles 0 (inl stored_hi) = store_settles req (inl stored_hi) ∧
    awaiting (exec initializeSocket alice_writes_to_absent_bob) !! req = Some k ∧
    ToSocket tab1 = ToSocket c ∧
    (map_get (k_receiverId k)
       (userSockets (exec initializeSocket alice_writes_to_absent_bob)) = Some c ∨
     map_get (k_senderId k)
       (userSockets (exec initializeSocket alice_writes_to_absent_bob)) = Some c).
Proof.
  assert (Emit (ToSocket tab1) (receive_message stored_hi)
            ∈ (step (exec initializeSocket alice_writes_to_absent_bob)
                 (store_settles 0 (inl stored_hi))).2) as H
    by apply list_elem_of_here.
  split; [exact H|].
  apply (receive_message_recipients _ _ _ _ H).
Defined.

(** X13: when the receiver and the sender are both registered, the
    handler emits the document twice and nothing else: to the receiver's
    socket first, then to the sender's. *)
Theorem relay_both_online inputs req k cr cs m :
  Forall input_ok inputs →
  awaiting (exec initializeSocket inputs) !! req = Some k →
  map_get (k_receiverId k) (userSockets (exec initializeSocket inputs)) = Some cr →
  map_get (k_senderId k) (userSockets (exec initializeSocket inputs)) = Some cs →
  (step (exec initializeSocket inputs) (store_settles req (inl m))).2
  = [Emit (ToSocket cr) (receive_message m); Emit (ToSocket cs) (receive_message m)].
Proof.
  intros Hok Hk Hr Hs.
  pose proof (sockets_named_exec inputs Hok) as Hnamed.
  cbn [step]. unfold store_settled. rewrite Hk. cbn [snd resume].
  rewrite (relay_to_registered _ cr), (relay_to_registered _ cs); [done |done | |done |].
  - eapply Hnamed. by eapply map_get_Some_elem.
  - eapply Hnamed. by eapply map_get_Some_elem.
Qed.

Lemma relay_both_online_witness :
  Forall input_ok
    [recv_user_connected tab1 alice; recv_user_connected tab2 bob;
     recv_send_message tab1 hi_from_alice_to_bob] ∧
  (step (exec initializeSocket
           [recv_user_connected tab1 alice; recv_user_connected tab2 bob;
            recv_send_message tab1 hi_from_alice_to_bob])
     (store_settles 0 (inl stored_hi))).2
  = [Emit (ToSocket tab2) (receive_message stored_hi);
     Emit (ToSocket tab1) (receive_message stored_hi)].
Proof.
  assert (Forall input_ok
            [recv_user_connected tab1 alice; recv_user_connected tab2 bob;
             recv_send_message tab1 hi_from_alice_to_bob]) as Hok.
  { repeat constructor; by vm_compute. }
  split; [exact Hok|].
  apply (relay_both_online _ 0
           {| k_socket := tab1; k_senderId := alice; k_receiverId := bob |}
           tab2 tab1 stored_hi Hok); reflexivity.
Defined.

(** ** The client's online set *)

Lemma elem_of_set_add x y (s : jsset) : x ∈ set_add y s ↔ x = y ∨ x ∈ s.
Proof.
  unfold set_add. case_decide as Hin.
  - split; [by right | by intros [->|?]].
  - rewrite elem_of_app, list_elem_of_singleton. tauto.
Qed.

Lemma NoDup_set_add y (s : jsset) : NoDup s → NoDup (set_add y s).
Proof.
  intros Hnd. unfold set_add. case_decide as Hin; [done|].
  apply NoDup_app. split_and!; [done | | apply NoDup_singleton].
  by intros x Hx ->%list_elem_of_singleton.
Qed.

Lemma set_of_array_from (acc l : jsset) :
  NoDup acc →
  NoDup (foldl (λ s x, set_add x s) acc l) ∧
  (∀ x, x ∈ foldl (λ s x, set_add x s) acc l ↔ x ∈ acc ∨ x ∈ l) ∧
  (NoDup (acc ++ l) → foldl (λ s x, set_add x s) acc l = acc ++ l).
Proof.
  revert acc. induction l as [|y l IH]; intros acc Hacc; cbn [foldl].
  - split_and!; [done | | by rewrite app_nil_r].
    intros x. rewrite elem_of_nil. tauto.
  - destruct (IH (set_add y acc) (NoDup_set_add y acc Hacc)) as (Hnd & Hmem & Heq).
    split_and!; [done | |].
    + intros x. rewrite Hmem, elem_of_set_add, elem_of_cons. tauto.
    + intros Hall. assert (y ∉ acc) as Hy.
      { apply NoDup_app in Hall as (_ & Hdisj & _). intros Hin.
        apply (Hdisj y Hin). apply list_elem_of_here. }
      revert Heq. unfold set_add. rewrite decide_False by done.
      rewrite <- app_assoc. cbn [app]. intros Heq. by apply Heq.
Qed.

Lemma set_of_array_NoDup (l : jsset) : NoDup l → set_of_array l = l.
Proof.
  intros Hl. unfold set_of_array.
  by apply (set_of_array_from [] l NoDup_nil_2).
Qed.

(** X14: after [users_online], the client's online set holds the
    members of the list received, each once, whatever it held before;
    when the list has no repetition, the set is the list, in its
    order. *)
Theorem users_online_replaces_set users st :
  NoDup (Client.onlineUsers (Client.on_users_online users st)) ∧
  (∀ x, x ∈ Client.onlineUsers (Client.on_users_online users st) ↔ x ∈ users) ∧
  (NoDup users → Client.onlineUsers (Client.on_users_online users st) = users).
Proof.
  unfold Client.on_users_online, set_of_array. cbn [Client.set_onlineUsers Client.onlineUsers].
  destruct (set_of_array_from [] users NoDup_nil_2) as (Hnd & Hmem & Heq).
  split_and!; [done | | done].
  intros x. rewrite Hmem, elem_of_nil. tauto.
Qed.

(** X15: [user_connected] adds the user to the online set and
    [user_disconnected] removes it; neither brings a repetition into the
    set, and [user_disconnected] leaves the user's entry in the client's
    activity map where it is. *)
Theorem incremental_presence userId st :
  (∀ x, x ∈ Client.onlineUsers (Client.on_user_connected userId st)
        ↔ x = userId ∨ x ∈ Client.onlineUsers st) ∧
  (∀ x, x ∈ Client.onlineUsers (Client.on_user_disconnected userId st)
        ↔ x ≠ userId ∧ x ∈ Client.onlineUsers st) ∧
  NoDup (Client.onlineUsers (Client.on_user_connected userId st)) ∧
  NoDup (Client.onlineUsers (Client.on_user_disconnected userId st)) ∧
  Client.userActivities (Client.on_user_disconnected userId st)
    = Client.userActivities st.
Proof.
  unfold Client.on_user_connected, Client.on_user_disconnected, set_of_array, set_delete.
  cbn [Client.set_onlineUsers Client.onlineUsers Client.userActivities].
  destruct (set_of_array_from [] (Client.onlineUsers st ++ [userId]) NoDup_nil_2)
    as (Hnd1 & Hmem1 & _).
  destruct (set_of_array_from [] (Client.onlineUsers st) NoDup_nil_2)
    as (Hnd2 & Hmem2 & _).
  split_and!; [| | done | by apply NoDup_filter | done].
  - intros x. rewrite Hmem1, elem_of_nil, elem_of_app, list_elem_of_singleton. tauto.
  - intros x. rewrite list_elem_of_filter, Hmem2, elem_of_nil. tauto.
Qed.

Lemma listen_users_online_fold ids (l : list jsstring) st :
  l ≠ [] →
  Client.onlineUsers (foldl (λ st userId, Client.listen userId (users_online ids) st) st l)
  = set_of_array ids.
Proof.
  intros Hl. induction l as [|u l IH] using rev_ind; [done|].
  by rewrite foldl_app.
Qed.

Lemma deliver_users_online ids c :
  Client.registered c ≠ [] →
  Client.onlineUsers (Client.store (Client.deliver (users_online ids) c))
  = set_of_array ids.
Proof. intros H. unfold Client.deliver. cbn [Client.store]. by apply listen_users_online_fold. Qed.

(** X16: whenever a step of the server emits [users_online], a
    client with its listeners registered that receives what the step
    sends to its socket ends with the registry's key list, as the step
    leaves it, for online set. *)
Theorem mirror_presence_matches_registry inputs i id c to ids :
  Client.registered c ≠ [] →
  Emit to (users_online ids) ∈ (step (exec initializeSocket inputs) i).2 →
  Client.onlineUsers
    (Client.store (receive (inbox id (step (exec initializeSocket inputs) i).2) c))
  = map_keys (userSockets (step (exec initializeSocket inputs) i).1).
Proof.
  intros Hc Hin.
  pose proof (well_formed_exec initializeSocket inputs well_formed_init) as Hwf.
  destruct (users_online_step _ _ _ _ Hwf Hin) as (_ & _ & Hnd).
  set (s := exec initializeSocket inputs) in *.
  destruct i as [c' u|c' p|c' d|req r|c']; cbn [step] in *.
  - apply list_elem_of_singleton in Hin as [= -> ->].
    cbn [user_connected snd fst inbox receive foldl userSockets].
    rewrite deliver_users_online by done. by apply set_of_array_NoDup.
  - by apply list_elem_of_singleton in Hin.
  - by apply list_elem_of_singleton in Hin.
  - unfold store_settled in Hin. destruct (awaiting s !! req) as [k|];
      [|by apply elem_of_nil in Hin].
    cbn [snd] in Hin. destruct r as [m|reason]; cbn [resume] in Hin.
    + apply elem_of_app in Hin as [[? [=]]%elem_of_relay_to|[? [=]]%elem_of_relay_to].
    + by apply list_elem_of_singleton in Hin.
  - unfold disconnect in *. destruct (find_socket c' (userSockets s)) as [u|];
      [|by apply elem_of_nil in Hin].
    cbn [fst snd] in *. destruct (truthy u); [|by apply elem_of_nil in Hin].
    rewrite !elem_of_cons, elem_of_nil in Hin.
    destruct Hin as [[=]|[[= -> ->]|[]]].
    cbn [inbox receive foldl userSockets].
    rewrite deliver_users_online by done. by apply set_of_array_NoDup.
Qed.

Lemma mirror_presence_matches_registry_witness :
  Client.registered bob_client ≠ [] ∧
  (Emit ToAll (users_online [alice])
     ∈ (step (exec initializeSocket []) (recv_user_connected tab1 alice)).2) ∧
  Client.onlineUsers
    (Client.store
       (receive (inbox tab2 (step (exec initializeSocket []) (recv_user_connected tab1 alice)).2)
          bob_client))
  = map_keys (userSockets (step (exec initializeSocket []) (recv_user_connected tab1 alice)).1).
Proof.
  assert (Client.registered bob_client ≠ []) as H1 by (by vm_compute).
  assert (Emit ToAll (users_online [alice])
            ∈ (step (exec initializeSocket []) (recv_user_connected tab1 alice)).2) as H2
    by apply list_elem_of_here.
  split_and!; [exact H1 | exact H2 |].
  apply (mirror_presence_matches_registry [] _ tab2 bob_client _ _ H1 H2).
Defined.

(** ** The conversation shown *)

Lemma on_receive_message_decide userId m st :
  Client.on_receive_message userId m st
  = if decide (in_selected_conversation userId (Client.selectedUser st) m)
    then Client.set_messages (Client.messages st ++ [m]) st
    else st.
Proof.
  pose proof (receive_message_test userId m st) as Ht.
  unfold Client.on_receive_message. cbv zeta.
  destruct ((bool_decide (Some (senderId m) = Client.clerkId <$> Client.selectedUser st)
               && bool_decide (receiverId m = userId))
            || (bool_decide (Some (receiverId m) = Client.clerkId <$> Client.selectedUser st)
                  && bool_decide (senderId m = userId))).
  - rewrite decide_True; [done | by apply Ht].
  - rewrite decide_False; [done|]. rewrite Ht. done.
Qed.

Lemma receive_messages_from userId ms st :
  Client.messages (receive_messages userId ms st)
  = Client.messages st
    ++ filter (λ m, in_selected_conversation userId (Client.selectedUser st) m) ms.
Proof.
  unfold receive_messages. revert st.
  induction ms as [|m ms IH]; intros st; cbn [foldl].
  - by rewrite filter_nil, app_nil_r.
  - rewrite IH, on_receive_message_decide, filter_cons.
    destruct (decide (in_selected_conversation userId (Client.selectedUser st) m)).
    + cbn [Client.set_messages Client.messages Client.selectedUser].
      by rewrite <- app_assoc.
    + done.
Qed.

(** X17: after a conversation is selected, with a user or with
    none, the messages shown are the incoming messages that belong to
    that conversation, in the order they came, and no other; what was
    shown before the selection is gone. *)
Theorem messages_are_the_conversation userId selected ms st :
  Client.messages (receive_messages userId ms (Client.setSelectedUser selected st))
  = filter (λ m, in_selected_conversation userId selected m) ms.
Proof. by rewrite receive_messages_from. Qed.

(** X18: [initSocket] does nothing while the store is connected: of
    two calls in a row on a store that was not connected, the second
    one, for whatever user, changes nothing, registers no listener and
    emits nothing. *)
Theorem initSocket_once_while_connected userId other c :
  Client.isConnected (Client.store c) = false →
  Client.initSocket other (Client.initSocket userId c).1
    = ((Client.initSocket userId c).1, []) ∧
  Client.registered (Client.initSocket userId c).1 = Client.registered c ++ [userId] ∧
  (Client.initSocket userId c).2
    = [Client.set_auth userId; Client.connect; Client.emit_user_connected userId].
Proof.
  intros Hc.
  assert (Client.initSocket userId c
          = ({| Client.store := Client.set_isConnected true (Client.store c);
                Client.registered := Client.registered c ++ [userId] |},
             [Client.set_auth userId; Client.connect; Client.emit_user_connected userId]))
    as ->.
  { unfold Client.initSocket. by rewrite Hc. }
  done.
Qed.

Lemma initSocket_once_while_connected_witness :
  Client.isConnected (Client.store Client.fresh_client) = false ∧
  Client.initSocket (js "carol") (Client.initSocket (js "bob") Client.fresh_client).1
    = ((Client.initSocket (js "bob") Client.fresh_client).1, []).
Proof.
  split; [reflexivity|].
  apply (initSocket_once_while_connected (js "bob") (js "carol") Client.fresh_client).
  reflexivity.
Defined.

(** X19: the listeners are never removed. After [initSocket],
    [disconnectSocket] and [initSocket] again, the socket has two
    [receive_message] listeners, and one incoming message of the
    selected conversation is appended twice. *)
Theorem listeners_accumulate userId m c :
  Client.isConnected (Client.store c) = false →
  Client.registered c = [] →
  in_selected_conversation userId (Client.selectedUser (Client.store c)) m →
  Client.registered
    (Client.initSocket userId
       (Client.disconnectSocket (Client.initSocket userId c).1).1).1
    = [userId; userId] ∧
  Client.messages
    (Client.store
       (Client.deliver (receive_message m)
          (Client.initSocket userId
             (Client.disconnectSocket (Client.initSocket userId c).1).1).1))
    = Client.messages (Client.store c) ++ [m; m].
Proof.
  intros Hc Hr Hm.
  assert ((Client.initSocket userId c).1
          = {| Client.store := Client.set_isConnected true (Client.store c);
               Client.registered := Client.registered c ++ [userId] |}) as ->.
  { unfold Client.initSocket. by rewrite Hc. }
  rewrite Hr. cbn [app Client.disconnectSocket Client.initSocket Client.store
                   Client.registered Client.set_isConnected Client.isConnected negb fst].
  split; [done|].
  unfold Client.deliver. cbn [Client.store Client.registered foldl Client.listen].
  rewrite !on_receive_message_decide.
  cbn [Client.selectedUser Client.set_isConnected].
  destruct (decide (in_selected_conversation userId
                      (Client.selectedUser (Client.store c)) m)) as [_|Hn];
    [|by destruct Hn].
  cbn [Client.selectedUser Client.messages Client.set_messages].
  rewrite decide_True by done.
  cbn [Client.messages Client.set_messages]. by rewrite <- app_assoc.
Qed.

Lemma listeners_accumulate_witness :
  Client.isConnected
    (Client.store {| Client.store := Client.setSelectedUser (Some user_bob) Client.useChatStore;
                     Client.registered := [] |}) = false ∧
  in_selected_conversation (js "alice") (Some user_bob) stored_hi ∧
  Client.messages
    (Client.store
       (Client.deliver (receive_message stored_hi)
          (Client.initSocket (js "alice")
             (Client.disconnectSocket
                (Client.initSocket (js "alice")
                   {| Client.store := Client.setSelectedUser (Some user_bob) Client.useChatStore;
                      Client.registered := [] |}).1).1).1))
    = [] ++ [stored_hi; stored_hi].
Proof.
  assert (in_selected_conversation (js "alice") (Some user_bob) stored_hi) as Hm.
  { exists user_bob. split; [done|]. right. by split. }
  split_and!; [reflexivity | exact Hm |].
  apply (listeners_accumulate (js "alice") stored_hi
           {| Client.store := Client.setSelectedUser (Some user_bob) Client.useChatStore;
              Client.registered := [] |} eq_refl eq_refl Hm).
Defined.

(** ** [trim] *)

Lemma trimStart_split (s : jsstring) :
  ∃ pre, s = pre ++ trimStart s ∧ Forall (λ c, is_white_space c = true) pre.
Proof.
  induction s as [|c s (pre & Hs & Hpre)]; [by exists []|].
  cbn [trimStart]. destruct (is_white_space c) eqn:Hc.
  - exists (c :: pre). split; [by rewrite Hs at 1 | by constructor].
  - by exists [].
Qed.

Lemma trimStart_head (s : jsstring) c :
  head (trimStart s) = Some c → is_visible c.
Proof.
  induction s as [|c' s IH]; [done|]. cbn [trimStart].
  destruct (is_white_space c') eqn:Hc; [done|]. by intros [= <-].
Qed.

Lemma trimStart_fixed (s : jsstring) :
  (∀ c, head s = Some c → is_visible c) → trimStart s = s.
Proof.
  destruct s as [|c s]; [done|]. intros H. cbn [trimStart].
  by rewrite (H c eq_refl).
Qed.

Lemma trimStart_nil (s : jsstring) :
  trimStart s = [] ↔ Forall (λ c, is_white_space c = true) s.
Proof.
  split; [|apply trimStart_white_space].
  intros H. destruct (trimStart_split s) as (pre & Hs & Hpre).
  rewrite H, app_nil_r in Hs. by subst.
Qed.

Lemma trimEnd_split (s : jsstring) :
  ∃ post, s = trimEnd s ++ post ∧ Forall (λ c, is_white_space c = true) post.
Proof.
  destruct (trimStart_split (reverse s)) as (pre & Hs & Hpre).
  exists (reverse pre). split; [|by apply Forall_reverse].
  unfold trimEnd. rewrite <- reverse_app, <- Hs. by rewrite reverse_involutive.
Qed.

Lemma trimEnd_last (s : jsstring) c : last (trimEnd s) = Some c → is_visible c.
Proof. unfold trimEnd. rewrite last_reverse. apply trimStart_head. Qed.

Lemma trimEnd_fixed (s : jsstring) :
  (∀ c, last s = Some c → is_visible c) → trimEnd s = s.
Proof.
  intros H. unfold trimEnd. rewrite trimStart_fixed; [apply reverse_involutive|].
  intros c. rewrite head_reverse. apply H.
Qed.

Lemma trimEnd_head (s : jsstring) c : head (trimEnd s) = Some c → head s = Some c.
Proof.
  destruct (trimEnd_split s) as (post & Hs & _). intros H.
  rewrite Hs. destruct (trimEnd s); [done|]. exact H.
Qed.

Lemma trim_nil (s : jsstring) :
  trim s = [] ↔ Forall (λ c, is_white_space c = true) s.
Proof.
  split; [|apply trim_white_space].
  unfold trim, trimEnd. intros H.
  apply (f_equal reverse) in H. rewrite reverse_involutive, reverse_nil in H.
  apply trimStart_nil in H. rewrite Forall_reverse in H.
  apply trimStart_nil.
  destruct (trimStart s) as [|c t] eqn:Ht; [done|].
  pose proof (trimStart_head s c) as Hc. rewrite Ht in Hc.
  apply Forall_cons in H as [Hws _]. unfold is_visible in Hc.
  by rewrite (Hc eq_refl) in Hws.
Qed.

(** X20: [trim] cuts white space off the two ends and nothing else:
    the string is a run of white space, the trimmed string and a run of
    white space; the trimmed string does not begin or end with white
    space; it is empty exactly when the string is white space only; and
    trimming it again changes nothing. *)
Theorem trim_spec (s : jsstring) :
  (∃ pre post,
     s = pre ++ trim s ++ post ∧
     Forall (λ c, is_white_space c = true) pre ∧
     Forall (λ c, is_white_space c = true) post) ∧
  (∀ c, head (trim s) = Some c → is_visible c) ∧
  (∀ c, last (trim s) = Some c → is_visible c) ∧
  (trim s = [] ↔ Forall (λ c, is_white_space c = true) s) ∧
  trim (trim s) = trim s.
Proof.
  assert (∀ c, head (trim s) = Some c → is_visible c) as Hhead.
  { intros c Hc%trimEnd_head. by eapply trimStart_head. }
  assert (∀ c, last (trim s) = Some c → is_visible c) as Hlast.
  { intros c. apply trimEnd_last. }
  split_and!; [| done | done | apply trim_nil |].
  - destruct (trimStart_split s) as (pre & Hs & Hpre).
    destruct (trimEnd_split (trimStart s)) as (post & Ht & Hpost).
    exists pre, post. split_and!; [|done..].
    unfold trim. by rewrite <- Ht.
  - unfold trim at 1. rewrite (trimStart_fixed (trim s)) by done.
    by apply trimEnd_fixed.
Qed.

(** ** From [sendMessage] to the store *)

(** X21: [sendMessage] with a content that has a code unit other
    than white space, on a store that holds its socket, emits one
    [send_message]; the server that receives it calls the store with the
    sender, the receiver and the content as they were passed, the
    content not trimmed, whichever socket it comes from. *)
Theorem sendMessage_reaches_store receiverId senderId (content : jsstring) st :
  is_Some (Client.socket st) →
  Exists is_visible content →
  Client.sendMessage receiverId senderId content st
    = (st, [Client.emit_send_message
              [("receiverId", JStr receiverId); ("senderId", JStr senderId);
               ("content", JStr content)]]) ∧
  ∀ socket s,
    (send_message socket
       [("receiverId", JStr receiverId); ("senderId", JStr senderId);
        ("content", JStr content)] s).2
    = [StoreCreate (next_req s) (JStr senderId) (JStr receiverId) (JStr content)].
Proof.
  intros Hsock Hvis. split; [|done].
  unfold Client.sendMessage. cbv zeta.
  rewrite bool_decide_eq_true_2 by done.
  destruct (trim content) as [|c t] eqn:Ht; [|done].
  apply trim_nil in Ht. exfalso.
  apply Exists_exists in Hvis as (c & Hin & Hc).
  rewrite Forall_forall in Ht. unfold is_visible in Hc.
  by rewrite (Ht c Hin) in Hc.
Qed.

Lemma sendMessage_reaches_store_witness :
  is_Some (Client.socket Client.useChatStore) ∧
  Exists is_visible (js " hi ") ∧
  Client.sendMessage (js "bob") (js "alice") (js " hi ") Client.useChatStore
    = (Client.useChatStore,
       [Client.emit_send_message
          [("receiverId", JStr (js "bob")); ("senderId", JStr (js "alice"));
           ("content", JStr (js " hi "))]]).
Proof.
  assert (is_Some (Client.socket Client.useChatStore)) as H1 by (by eexists).
  assert (Exists is_visible (js " hi ")) as H2.
  { apply Exists_cons_tl, Exists_cons_hd. reflexivity. }
  split_and!; [exact H1 | exact H2 |].
  apply (sendMessage_reaches_store (js "bob") (js "alice") (js " hi ")
           Client.useChatStore H1 H2).
Defined.

(** ** A message to oneself *)

(** X22: a user who is registered writes to themselves. The server
    emits the document twice to the user's socket, once as receiver and
    once as sender, and a client with that conversation selected and
    one listener appends it twice. *)
Theorem message_to_oneself_shown_twice inputs req k c m (me : jsstring) st :
  Forall input_ok inputs →
  awaiting (exec initializeSocket inputs) !! req = Some k →
  k_senderId k = JStr me →
  k_receiverId k = JStr me →
  map_get (JStr me) (userSockets (exec initializeSocket inputs)) = Some c →
  senderId m = me →
  receiverId m = me →
  Client.selectedUser st = Some {| Client.clerkId := me |} →
  (step (exec initializeSocket inputs) (store_settles req (inl m))).2
    = [Emit (ToSocket c) (receive_message m); Emit (ToSocket c) (receive_message m)] ∧
  Client.messages
    (Client.store
       (receive
          (inbox c (step (exec initializeSocket inputs) (store_settles req (inl m))).2)
          {| Client.store := st; Client.registered := [me] |}))
    = Client.messages st ++ [m; m].
Proof.
  intros Hok Hk Hs Hr Hc Hsm Hrm Hsel.
  assert (c ≠ []) as Hne.
  { eapply (sockets_named_exec inputs Hok). by eapply map_get_Some_elem. }
  assert ((step (exec initializeSocket inputs) (store_settles req (inl m))).2
          = [Emit (ToSocket c) (receive_message m); Emit (ToSocket c) (receive_message m)])
    as ->.
  { cbn [step]. unfold store_settled. rewrite Hk. cbn [snd resume].
    rewrite Hs, Hr. by rewrite (relay_to_registered _ c). }
  split; [done|].
  cbn [inbox]. rewrite !decide_True by done.
  unfold receive, Client.deliver.
  cbn [foldl Client.store Client.registered Client.listen].
  assert (in_selected_conversation me (Some {| Client.clerkId := me |}) m) as Hin.
  { eexists. split; [done|]. left. by split. }
  rewrite !on_receive_message_decide. rewrite Hsel.
  destruct (decide (in_selected_conversation me (Some {| Client.clerkId := me |}) m))
    as [_|Hn]; [|by destruct Hn].
  cbn [Client.selectedUser Client.messages Client.set_messages]. rewrite Hsel.
  rewrite decide_True by done.
  cbn [Client.messages Client.set_messages]. by rewrite <- app_assoc.
Qed.

Lemma message_to_oneself_shown_twice_witness :
  Forall input_ok
    [recv_user_connected tab1 alice;
     recv_send_message tab1 [("senderId", alice); ("receiverId", alice);
                             ("content", JStr (js "todo"))]] ∧
  Client.messages
    (Client.store
       (receive
          (inbox tab1
             (step (exec initializeSocket
                      [recv_user_connected tab1 alice;
                       recv_send_message tab1
                         [("senderId", alice); ("receiverId", alice);
                          ("content", JStr (js "todo"))]])
                (store_settles 0 (inl note_to_self))).2)
          {| Client.store :=
               Client.setSelectedUser (Some {| Client.clerkId := js "alice" |})
                 Client.useChatStore;
             Client.registered := [js "alice"] |}))
    = Client.messages
        (Client.setSelectedUser (Some {| Client.clerkId := js "alice" |})
           Client.useChatStore)
      ++ [note_to_self; note_to_self].
Proof.
  assert (Forall input_ok
            [recv_user_connected tab1 alice;
             recv_send_message tab1 [("senderId", alice); ("receiverId", alice);
                                     ("content", JStr (js "todo"))]]) as Hok.
  { repeat constructor; by vm_compute. }
  split; [exact Hok|].
  apply (message_to_oneself_shown_twice _ 0
           {| k_socket := tab1; k_senderId := alice; k_receiverId := alice |}
           tab1 note_to_self (js "alice")
           (Client.setSelectedUser (Some {| Client.clerkId := js "alice" |})
              Client.useChatStore) Hok); reflexivity.
Defined.

(** ** The client's activity map *)

Lemma map_set_twice {V} k (v : V) (m : jsmap V) :
  map_set k v (map_set k v m) = map_set k v m.
Proof.
  induction m as [|[k' v'] m IH]; cbn [map_set].
  - by rewrite decide_True.
  - destruct (decide (k' = k)) as [->|Hne]; cbn [map_set].
    + by rewrite decide_True.
    + rewrite decide_False by done. by rewrite IH.
Qed.

(** X23: the [activity_updated] listener writes the payload's
    activity under the payload's [userId] and leaves the entry of every
    other key as it was; a second delivery of the same payload changes
    nothing more. *)
Theorem activity_updated_upserts payload st :
  map_get (get_field payload "userId")
    (Client.userActivities (Client.on_activity_updated payload st))
    = Some (get_field payload "activity") ∧
  (∀ other, other ≠ get_field payload "userId" →
     map_get other (Client.userActivities (Client.on_activity_updated payload st))
       = map_get other (Client.userActivities st)) ∧
  Client.on_activity_updated payload (Client.on_activity_updated payload st)
    = Client.on_activity_updated payload st.
Proof.
  unfold Client.on_activity_updated, Client.set_userActivities.
  cbn [Client.users Client.isLoading Client.error Client.socket Client.isConnected
       Client.onlineUsers Client.userActivities Client.messages Client.selectedUser].
  split_and!; [apply map_get_set_eq | |].
  - intros other Hne. apply map_get_set_ne. by intros ?.
  - by rewrite map_set_twice.
Qed.

Lemma map_of_entries_from {V} k (acc : jsmap V) (entries : list (jsval * V)) :
  map_get k (foldl (λ m e, map_set e.1 e.2 m) acc entries)
  = match last_entry k entries with
    | Some v => Some v
    | None => map_get k acc
    end.
Proof.
  unfold last_entry. induction entries as [|[k' v'] entries IH] using rev_ind.
  - done.
  - rewrite foldl_app, reverse_snoc. cbn [foldl fst snd map_get].
    destruct (decide (k' = k)) as [->|Hne].
    + apply map_get_set_eq.
    + by rewrite map_get_set_ne.
Qed.

(** X24: the [activities] listener replaces the activity map by the
    entries received: a key has the activity of its last entry in the
    array, and a key with no entry has none, whatever the map held
    before. *)
Theorem activities_snapshot_last_write_wins activities st k :
  map_get k (Client.userActivities (Client.on_activities activities st))
  = last_entry k activities.
Proof.
  unfold Client.on_activities. cbn [Client.set_userActivities Client.userActivities].
  rewrite map_of_entries_from. by destruct (last_entry k activities).
Qed.

(** ** The REST calls *)

(** X25: whatever the answer to [fetchMessages], the store ends not
    loading and the promise is fulfilled; a failure empties the messages
    and is not recorded in [error]. The answer is written into
    [messages] whatever conversation is selected by then: when the
    selection changes between the call and its answer, the messages of
    the conversation asked for first are shown under the new one. *)
Theorem fetchMessages_outcome userId selected r st :
  Client.isLoading
    (Rest.fetchMessages_settled r
       (Client.setSelectedUser selected (Rest.fetchMessages_start userId st).1)).1
    = false ∧
  (Rest.fetchMessages_settled r
     (Client.setSelectedUser selected (Rest.fetchMessages_start userId st).1)).2
    = Rest.fulfilled ∧
  Client.error
    (Rest.fetchMessages_settled r
       (Client.setSelectedUser selected (Rest.fetchMessages_start userId st).1)).1
    = None ∧
  Client.selectedUser
    (Rest.fetchMessages_settled r
       (Client.setSelectedUser selected (Rest.fetchMessages_start userId st).1)).1
    = selected ∧
  Client.messages
    (Rest.fetchMessages_settled r
       (Client.setSelectedUser selected (Rest.fetchMessages_start userId st).1)).1
    = match r with inl data => data | inr _ => [] end.
Proof. by destruct r. Qed.

(** X26: whatever the answer to [fetchUsers], the store ends not
    loading, also when the [catch] block itself throws because the error
    has no response: then the promise is rejected and [error] stays
    [null]. A failure leaves [users] as it was; an error with a message
    puts the message in [error]. *)
Theorem fetchUsers_outcome r st :
  Client.isLoading (Rest.fetchUsers_settled r (Rest.fetchUsers_start st).1).1 = false ∧
  Client.users (Rest.fetchUsers_settled r (Rest.fetchUsers_start st).1).1
    = match r with inl data => data | inr _ => Client.users st end ∧
  Client.error (Rest.fetchUsers_settled r (Rest.fetchUsers_start st).1).1
    = match r with
      | inr (Rest.error_with_message message) => Some message
      | _ => None
      end ∧
  (Rest.fetchUsers_settled r (Rest.fetchUsers_start st).1).2
    = match r with
      | inr Rest.error_without_response => Rest.rejected
      | _ => Rest.fulfilled
      end ∧
  Client.messages (Rest.fetchUsers_settled r (Rest.fetchUsers_start st).1).1
    = Client.messages st.
Proof. by destruct r as [data|[message|]]. Qed.
